(** * tanks.py : a two-player artillery game

    Shallow embedding of [src/tanks.py] and proofs of the properties its
    specification states.

    Conventions of the embedding.
    - A Python call either returns a value or raises; [result A] is the
      sum [exn + A] with [inl] for a raised exception.
    - A box is the 4-tuple [(left, right, bottom, top)] the code indexes
      with [box[0]] .. [box[3]].
    - The scanning functions ([firstInBox], [endTrajectoryAtIntersection])
      only compare numbers, so they are written once for any number type
      [T] with a boolean [<=]; they run on [Z] and are used on [R].
    - The numeric code ([trajectory], [tankShot]) is read in exact real
      arithmetic: a Python float is a real number, [np.sin], [np.cos] and
      [np.sqrt] are [sin], [cos] and [sqrt].  Rounding, infinities and
      NaN are outside this reading; what is proved on it is either about
      the order of the scans, which no rounding changes, or is stated as
      a fact of real arithmetic.
    - The module [B64] holds the same numeric code on binary64 numbers;
      it runs, and shows where rounding decides the outcome of a shot. *)

From Stdlib Require PrimFloat Uint63.
From Stdlib Require Import String Ascii DecimalString.
From Stdlib Require Import List ZArith Bool Lia.
From Stdlib Require Import Reals Lra.
Import ListNotations.

(** ** Exceptions and results *)

Inductive exn : Type :=
| IndexError
| ZeroDivisionError
| ValueError
| EOFError.

Definition result (A : Type) : Type := (exn + A)%type.

Definition ret {A : Type} (a : A) : result A := inr a.

Definition raise {A : Type} (e : exn) : result A := inl e.

Definition bind {A B : Type} (c : result A) (k : A -> result B) : result B :=
  match c with
  | inl e => inl e
  | inr a => k a
  end.

Notation "x <- c ;; k" := (bind c (fun x => k))
  (at level 61, c at next level, right associativity).

(** [l[i]] for a non-negative index: [IndexError] out of range. *)
Definition index {A : Type} (l : list A) (i : nat) : result A :=
  match nth_error l i with
  | Some a => ret a
  | None => raise IndexError
  end.

(** [l[0:i]] for [0 <= i]. *)
Definition slice_to {A : Type} (l : list A) (i : Z) : list A :=
  firstn (Z.to_nat i) l.

(** ** Boxes and the scan for the first point in a box *)

Section Scan.

Variable T : Type.
Variable leb : T -> T -> bool.

Record Box : Type := mkBox {
  box_left : T;     (* box[0] *)
  box_right : T;    (* box[1] *)
  box_bottom : T;   (* box[2] *)
  box_top : T       (* box[3] *)
}.

(** The chained comparison [lo <= v <= hi]. *)
Definition between (lo v hi : T) : bool := leb lo v && leb v hi.

(** The loop [for i in range(0,len(x))] of [firstInBox], over the list
    of indices still to visit.  [y[i]] is only evaluated when the test
    on [x[i]] succeeded ([and] is lazy). *)
Fixpoint firstInBox_loop (range : list nat) (x y : list T) (box : Box)
  : result Z :=
  match range with
  | [] => ret (-1)%Z
  | i :: rest =>
      xi <- index x i ;;
      if between (box_left box) xi (box_right box) then
        yi <- index y i ;;
        if between (box_bottom box) yi (box_top box) then ret (Z.of_nat i)
        else firstInBox_loop rest x y box
      else firstInBox_loop rest x y box
  end.

Definition firstInBox (x y : list T) (box : Box) : result Z :=
  firstInBox_loop (seq 0 (length x)) x y box.

Definition endTrajectoryAtIntersection (x y : list T) (box : Box)
  : result (list T * list T) :=
  i <- firstInBox x y box ;;
  if (i <? 0)%Z then ret (x, y)
  else ret (slice_to x i, slice_to y i).

(** *** Specification vocabulary *)

(** The point [(px, py)] lies in the box, bounds included. *)
Definition inBox (box : Box) (px py : T) : bool :=
  between (box_left box) px (box_right box)
  && between (box_bottom box) py (box_top box).

(** The [j]-th point of the sequence [(x, y)] exists and lies in the box. *)
Definition inBoxAt (box : Box) (x y : list T) (j : nat) : bool :=
  match nth_error x j, nth_error y j with
  | Some px, Some py => inBox box px py
  | _, _ => false
  end.

End Scan.

Arguments mkBox {T} _ _ _ _.
Arguments box_left {T} _.
Arguments box_right {T} _.
Arguments box_bottom {T} _.
Arguments box_top {T} _.
Arguments between {T} leb lo v hi.
Arguments firstInBox_loop {T} leb range x y box.
Arguments firstInBox {T} leb x y box.
Arguments endTrajectoryAtIntersection {T} leb x y box.
Arguments inBox {T} leb box px py.
Arguments inBoxAt {T} leb box x y j.

(** ** The trajectory engine, in real arithmetic *)

Local Open Scope R_scope.

(** [a <= b] on reals, as a boolean. *)
Definition Rleb (a b : R) : bool := if Rle_dec a b then true else false.

(** [np.deg2rad]. *)
Definition deg2rad (d : R) : R := d * (PI / 180).

(** [y[-1] = stop]: overwrite the last element of a non-empty array. *)
Definition set_last (y : list R) (stop : R) : list R :=
  removelast y ++ [stop].

(** [np.linspace(start, stop, num)] with [endpoint=True], for a number of
    samples [num]: the samples are [arange(0, num) * step + start] with
    [step = (stop - start) / (num - 1)], and the last one is overwritten
    by [stop] when [num > 1].  (With [num <= 1] there is no step and numpy
    multiplies by [stop - start] instead.) *)
Definition linspace (start stop : R) (num : N) : list R :=
  let div := (Z.of_N num - 1)%Z in
  let delta := stop - start in
  let arange := map INR (seq 0 (N.to_nat num)) in
  let y :=
    if (0 <? div)%Z then map (fun i => i * (delta / IZR div) + start) arange
    else map (fun i => i * delta + start) arange in
  if (1 <? num)%N then set_last y stop else y.

(** The flight time [tfinal] of [trajectory], from the vertical speed.
    For a negative radicand [np.sqrt] gives NaN, which the real reading
    does not have: the facts below about [tfinal] are for [g > 0] and
    [y0 > 0], where the radicand is positive. *)
Definition tfinal (vy y0 g : R) : R :=
  vy / g + sqrt ((vy / g) ^ 2 + 2 * y0 / g).

(** [trajectory(x0, y0, v, theta, g, npts)].  [y0] and [g] are Python
    floats, so [2*y0/g] raises [ZeroDivisionError] when [g] is zero. *)
Definition trajectory (x0 y0 v theta g : R) (npts : N)
  : result (list R * list R) :=
  let vy := v * sin (deg2rad theta) in
  let vx := v * cos (deg2rad theta) in
  if Req_dec_T g 0 then raise ZeroDivisionError
  else
    let t := linspace 0 (tfinal vy y0 g) npts in
    let x := map (fun ti => x0 + vx * ti) t in
    let y := map (fun ti => y0 + vy * ti - 0.5 * g * ti ^ 2) t in
    ret (x, y).

(** [tankShot].  The call of [plt.plot] only draws the truncated path and
    is left out. *)
Definition tankShot (targetBox obstacleBox : Box R) (x0 y0 v theta g : R)
  : result bool :=
  xy <- trajectory x0 y0 v theta g 10000%N ;;
  xy' <- endTrajectoryAtIntersection Rleb (fst xy) (snd xy) obstacleBox ;;
  i <- firstInBox Rleb (fst xy') (snd xy') targetBox ;;
  ret (0 <=? i)%Z.

(** ** The trajectory engine in binary64 *)

(** The same code on IEEE binary64 numbers, the floats of Python and
    numpy, with their rounding, infinities and NaN.  [np.sin] and
    [np.cos] are not computed here and are parameters.  The square
    [(vy/g)**2] of a scalar is taken as the product, like the square
    [t**2] of an array. *)
Module B64.

Import PrimFloat.
#[local] Open Scope float_scope.

(** A small non-negative integer as a float. *)
Definition of_Z (z : Z) : float := of_uint63 (Uint63.of_Z z).

(** [np.arange(first, first + count)]: the integers from [first] on. *)
Fixpoint arange (first : Z) (count : nat) : list float :=
  match count with
  | O => []
  | S count' => of_Z first :: arange (first + 1)%Z count'
  end.

Definition pi : float := 0x1.921fb54442d18p+1.

(** [np.deg2rad]. *)
Definition deg2rad (d : float) : float := d * (pi / 180).

Definition set_last (y : list float) (stop : float) : list float :=
  removelast y ++ [stop].

(** [np.linspace(start, stop, num)]: with [num > 1] the indices are
    multiplied by [step = delta / div], or divided by [div] and multiplied
    by [delta] when the step is zero; [start] is added, and the last
    sample is overwritten by [stop]. *)
Definition linspace (start stop : float) (num : N) : list float :=
  let div := (Z.of_N num - 1)%Z in
  let delta := stop - start in
  let indices := arange 0 (N.to_nat num) in
  let y :=
    if (0 <? div)%Z then
      let step := delta / of_Z div in
      if step =? 0 then map (fun i => i / of_Z div * delta) indices
      else map (fun i => i * step) indices
    else map (fun i => i * delta) indices in
  let y := map (fun t => t + start) y in
  if (1 <? num)%N then set_last y stop else y.

Section Trigonometry.

Variables np_sin np_cos : float -> float.

Definition tfinal (vy y0 g : float) : float :=
  vy / g + sqrt (vy / g * (vy / g) + 2 * y0 / g).

(** [trajectory]: [2*y0/g] divides Python floats and raises for a zero
    [g] of either sign. *)
Definition trajectory (x0 y0 v theta g : float) (npts : N)
  : result (list float * list float) :=
  let vy := v * np_sin (deg2rad theta) in
  let vx := v * np_cos (deg2rad theta) in
  if g =? 0 then raise ZeroDivisionError
  else
    let t := linspace 0 (tfinal vy y0 g) npts in
    let x := map (fun ti => x0 + vx * ti) t in
    let y := map (fun ti => y0 + vy * ti - 0.5 * g * (ti * ti)) t in
    ret (x, y).

Definition tankShot (targetBox obstacleBox : Box float)
  (x0 y0 v theta g : float) : result bool :=
  xy <- trajectory x0 y0 v theta g 10000%N ;;
  xy' <- endTrajectoryAtIntersection leb (fst xy) (snd xy) obstacleBox ;;
  i <- firstInBox leb (fst xy') (snd xy') targetBox ;;
  ret (0 <=? i)%Z.

End Trigonometry.


(** The boxes of [main], and a box just under the ground. *)
Definition tank2box_main : Box float := mkBox 90 95 0 5.
Definition obstacleBox_main : Box float := mkBox 40 60 0 50.



End B64.

(** ** Console input and output *)

(** A bound of a valid range: the default range is [[-inf, inf]]. *)
Inductive ext : Type :=
| NegInf
| Fin (r : R)
| PosInf.

Definition ext_leb (a b : ext) : bool :=
  match a, b with
  | NegInf, _ => true
  | _, PosInf => true
  | Fin p, Fin q => Rleb p q
  | _, _ => false
  end.

(** What the program has written to the console. *)
Inductive output : Type :=
| Prompt (text : string)            (* the prompt of a call of [input] *)
| Printed (text : string)           (* [print] of a text *)
| PrintedRange (lo hi : ext).       (* the out-of-range message *)

(** The console: the lines still to be read (end of file after the last
    one) and everything written so far. *)
Record world : Type := mkWorld {
  stdin : list string;
  stdout : list output
}.

(** A run of console code: a value, a raised exception, or not finished
    within the given number of loop iterations. *)
Inductive outcome (A : Type) : Type :=
| Ret (a : A) (w : world)
| Raise (e : exn) (w : world)
| OutOfFuel.

Arguments Ret {A} a w.
Arguments Raise {A} e w.
Arguments OutOfFuel {A}.

Definition io (A : Type) : Type := world -> outcome A.

Definition io_ret {A : Type} (a : A) : io A := fun w => Ret a w.

Definition io_bind {A B : Type} (c : io A) (k : A -> io B) : io B :=
  fun w =>
    match c w with
    | Ret a w' => k a w'
    | Raise e w' => Raise e w'
    | OutOfFuel => OutOfFuel
    end.

Notation "x <~ c ;; k" := (io_bind c (fun x => k))
  (at level 61, c at next level, right associativity).

(** A pure computation that may raise, run at the console. *)
Definition lift {A : Type} (r : result A) : io A :=
  fun w =>
    match r with
    | inl e => Raise e w
    | inr a => Ret a w
    end.

Definition write (o : output) (w : world) : world :=
  mkWorld (stdin w) (stdout w ++ [o]).

(** [print(text)]. *)
Definition print (o : output) : io unit := fun w => Ret tt (write o w).

(** [input(prompt)]: shows the prompt and reads one line; [EOFError] at
    the end of the input. *)
Definition input (prompt : string) : io string :=
  fun w =>
    match stdin w with
    | [] => Raise EOFError (write (Prompt prompt) w)
    | line :: rest => Ret line (mkWorld rest (stdout w ++ [Prompt prompt]))
    end.

(** [str(n)] for an integer. *)
Definition str (n : Z) : string := NilZero.string_of_int (Z.to_int n).

(** ** The turn controller *)

Section TurnController.

(** [float(s)] of Python: the number a line denotes, [None] when
    [float] raises [ValueError].  Lines that [float] reads as an infinity
    or as NaN have no real number and are outside this reading. *)
Variable parse_float : string -> option R.

Definition float (s : string) : result R :=
  match parse_float s with
  | Some r => ret r
  | None => raise ValueError
  end.

Definition default_range : ext * ext := (NegInf, PosInf).

(** [getNumberInput].  [fuel] bounds the iterations of [while True] (here
    and in the loops below; a loop that is still running when the fuel is
    used up gives [OutOfFuel]); [except Exception] catches every exception
    of the [try] block. *)
Fixpoint getNumberInput (fuel : nat) (prompt : string)
  (validRange : ext * ext) : io R :=
  fun w =>
    match fuel with
    | O => OutOfFuel
    | S fuel' =>
        match (s <~ input prompt ;; lift (float s)) w with
        | Raise _ w1 =>
            (_ <~ print (Printed "Please enter a number") ;;
             getNumberInput fuel' prompt validRange) w1
        | Ret num w1 =>
            if ext_leb (fst validRange) (Fin num)
               && ext_leb (Fin num) (snd validRange)
            then Ret num w1
            else
              (_ <~ print (PrintedRange (fst validRange) (snd validRange)) ;;
               getNumberInput fuel' prompt validRange) w1
        | OutOfFuel => OutOfFuel
        end
    end.

(** [oneTurn].  [drawBoard] and [showWindow] only draw and are left
    out. *)
Definition oneTurn (fuel : nat) (tank1box tank2box obstacleBox : Box R)
  (playerNum : Z) (g : R) : io Z :=
  v <~ getNumberInput fuel
         ("Player " ++ str playerNum ++ " enter velocity >") default_range ;;
  theta <~ getNumberInput fuel
         ("Player " ++ str playerNum ++ " enter angle (deg) >") default_range ;;
  let target := if (playerNum =? 1)%Z then tank2box else tank1box in
  let origin := if (playerNum =? 1)%Z then tank1box else tank2box in
  let x0 := 0.5 * (box_left origin + box_right origin) in
  let y0 := 0.5 * (box_bottom origin + box_top origin) in
  hit <~ lift (tankShot target obstacleBox x0 y0 v theta g) ;;
  if (hit : bool) then io_ret playerNum else io_ret 0%Z.

(** The [while True] loop of [playGame], entered with the current
    player; it returns the winner it breaks with. *)
Fixpoint playGame_loop (fuel : nat) (tank1box tank2box obstacleBox : Box R)
  (g : R) (playerNum : Z) : io Z :=
  match fuel with
  | O => fun _ => OutOfFuel
  | S fuel' =>
      winner <~ oneTurn fuel' tank1box tank2box obstacleBox playerNum g ;;
      if negb (winner =? 0)%Z then io_ret winner
      else
        _ <~ input "hit enter to continue >" ;;
        playGame_loop fuel' tank1box tank2box obstacleBox g
          (if (playerNum =? 1)%Z then 2%Z else 1%Z)
  end.

Definition playGame (fuel : nat) (tank1box tank2box obstacleBox : Box R)
  (g : R) : io unit :=
  winner <~ playGame_loop fuel tank1box tank2box obstacleBox g 1%Z ;;
  print (Printed ("Congratulations player " ++ str winner ++ " !")).

(** *** Specification vocabulary *)

(** The player who shoots after [playerNum]. *)
Definition next_player (playerNum : Z) : Z :=
  if (playerNum =? 1)%Z then 2%Z else 1%Z.

(** The number a line is accepted as: it parses and lies in the range,
    bounds included. *)
Definition accepted (validRange : ext * ext) (line : string) : option R :=
  match parse_float line with
  | Some num =>
      if ext_leb (fst validRange) (Fin num)
         && ext_leb (Fin num) (snd validRange)
      then Some num else None
  | None => None
  end.

(** What is printed for a line that is not accepted. *)
Definition rejection (validRange : ext * ext) (line : string) : output :=
  match parse_float line with
  | Some _ => PrintedRange (fst validRange) (snd validRange)
  | None => Printed "Please enter a number"
  end.

(** The console output for a sequence of lines that are not accepted:
    each one is prompted for and then rejected. *)
Definition reprompts (prompt : string) (validRange : ext * ext)
  (lines : list string) : list output :=
  flat_map (fun line => [Prompt prompt; rejection validRange line]) lines.

(** [misses players p w p' w']: from the console [w], with [p] to
    shoot, the players [players] shoot in turn, every shot misses and is
    acknowledged, and [p'] is then to shoot, at the console [w']. *)
Inductive misses (tank1box tank2box obstacleBox : Box R) (g : R)
  : list Z -> Z -> world -> Z -> world -> Prop :=
| misses_nil : forall p w, misses tank1box tank2box obstacleBox g [] p w p w
| misses_cons : forall p w fuel w1 line w2 players p' w',
    oneTurn fuel tank1box tank2box obstacleBox p g w = Ret 0%Z w1 ->
    input "hit enter to continue >" w1 = Ret line w2 ->
    misses tank1box tank2box obstacleBox g players (next_player p) w2 p' w' ->
    misses tank1box tank2box obstacleBox g (p :: players) p w p' w'.

End TurnController.

(** A run that came to an end: it returned or raised. *)
Definition finished {A : Type} (r : outcome A) : Prop := r <> OutOfFuel.

(** The players of [n] successive turns, [p] shooting first. *)
Fixpoint alternating (p : Z) (n : nat) : list Z :=
  match n with
  | O => []
  | S n' => p :: alternating (next_player p) n'
  end.

(** ** Data of the worked examples *)

(** [float] on the non-empty strings of decimal digits; every other line
    is rejected.  Used only to run the console code on concrete input. *)
Definition parse_digits (s : string) : option R :=
  match s with
  | EmptyString => None
  | _ =>
      match NilEmpty.uint_of_string s with
      | Some u => Some (IZR (Z.of_uint u))
      | None => None
      end
  end.

(** The boxes of [main]. *)
Definition tank1box_main : Box R := mkBox 10 15 0 5.
Definition tank2box_main : Box R := mkBox 90 95 0 5.
Definition obstacleBox_main : Box R := mkBox 40 60 0 50.

(** [main]: the game on these boxes, with the default gravity. *)
Definition main (parse_float : string -> option R) (fuel : nat) : io unit :=
  playGame parse_float fuel tank1box_main tank2box_main obstacleBox_main 9.8.

(** An obstacle that hangs above the ground. *)
Definition obstacleBox_high : Box R := mkBox 40 60 10 50.

(** A game on the boxes of [main] under the hanging obstacle, with
    gravity 5: player 1 drops the shell (velocity 0), the miss is
    acknowledged, and player 2 fires level (velocity 80, angle 180). *)
Definition game_input : world :=
  mkWorld ["0"; "0"; ""; "80"; "180"]%string [].

Definition game_after_miss : world :=
  mkWorld ["80"; "180"]%string
    [Prompt "Player 1 enter velocity >";
     Prompt "Player 1 enter angle (deg) >";
     Prompt "hit enter to continue >"].

Definition game_end : world :=
  mkWorld []
    [Prompt "Player 1 enter velocity >";
     Prompt "Player 1 enter angle (deg) >";
     Prompt "hit enter to continue >";
     Prompt "Player 2 enter velocity >";
     Prompt "Player 2 enter angle (deg) >";
     Printed "Congratulations player 2 !"].

(** The console of a player who types a word, then a number too large,
    then a number of the range [[0, 100]]. *)
Definition fumbled_input : world :=
  mkWorld ["abc"; "200"; "45"; "7"]%string [].

Definition fumbled_end : world :=
  mkWorld ["7"]%string
    [Prompt "velocity >";
     Printed "Please enter a number";
     Prompt "velocity >";
     PrintedRange (Fin 0) (Fin 100);
     Prompt "velocity >"].

(** Two boxes around the column [0 <= x <= 1]: one around the height 1,
    one just below the ground. *)
Definition ceiling_box : Box R := mkBox 0 1 1 2.
Definition ground_box : Box R := mkBox 0 1 (-1) 0.

(** ** Further vocabulary *)

(** [drawBox]: the corner arrays [x], [y] and the colour it hands to
    [ax.fill]; what matplotlib draws from them is not modelled. *)
Definition drawBox {T : Type} (box : Box T) (color : string)
  : list T * list T * string :=
  ([box_left box; box_left box; box_right box; box_right box],
   [box_bottom box; box_top box; box_top box; box_bottom box],
   color).

(** The box [inner] lies within the box [outer]. *)
Definition box_within (inner outer : Box R) : Prop :=
  box_left outer <= box_left inner /\ box_right inner <= box_right outer
  /\ box_bottom outer <= box_bottom inner /\ box_top inner <= box_top outer.

(** [m] is the first index of the sequence in one of two boxes, or the
    number of points when no point is in either. *)
Definition first_in_either {T : Type} (leb : T -> T -> bool)
  (boxA boxB : Box T) (x y : list T) (m : nat) : Prop :=
  (forall k, (k < m)%nat ->
     inBoxAt leb boxA x y k = false /\ inBoxAt leb boxB x y k = false)
  /\ (inBoxAt leb boxA x y m = true \/ inBoxAt leb boxB x y m = true
      \/ m = length x).

(** Truncation at one box and then at another. *)
Definition cut_twice {T : Type} (leb : T -> T -> bool) (x y : list T)
  (first second : Box T) : result (list T * list T) :=
  xy <- endTrajectoryAtIntersection leb x y first ;;
  endTrajectoryAtIntersection leb (fst xy) (snd xy) second.

(** * Properties *)

(** ** The result monad *)


(** ** The scan *)

Section ScanFacts.

Variable T : Type.
Variable leb : T -> T -> bool.

Lemma index_some (l : list T) (i : nat) :
  (i < length l)%nat -> exists a, nth_error l i = Some a /\ index l i = ret a.
Proof.
  intros Hi. unfold index.
  destruct (nth_error l i) as [a |] eqn:E.
  - exists a. split; reflexivity.
  - apply nth_error_None in E. lia.
Qed.

(** One iteration of the loop at an index where both arrays are
    defined: the loop stops there exactly when the point is in the box. *)
Lemma firstInBox_loop_step (i : nat) (rest : list nat) (x y : list T)
  (box : Box T) :
  (i < length x)%nat -> (i < length y)%nat ->
  firstInBox_loop leb (i :: rest) x y box =
    if inBoxAt leb box x y i then ret (Z.of_nat i)
    else firstInBox_loop leb rest x y box.
Proof.
  intros Hx Hy.
  destruct (index_some x i Hx) as [xi [Ex Ix]].
  destruct (index_some y i Hy) as [yi [Ey Iy]].
  unfold inBoxAt, inBox. rewrite Ex, Ey.
  cbn [firstInBox_loop]. rewrite Ix. cbn [bind ret].
  destruct (between leb (box_left box) xi (box_right box)); cbn [andb].
  - rewrite Iy. cbn [bind ret]. reflexivity.
  - reflexivity.
Qed.

(** The loop over the indices [s, s+1, ..., s+n-1]. *)
Lemma firstInBox_loop_seq (n s : nat) (x y : list T) (box : Box T) :
  (s + n <= length x)%nat -> (s + n <= length y)%nat ->
  (exists j, (s <= j < s + n)%nat
             /\ firstInBox_loop leb (seq s n) x y box = ret (Z.of_nat j)
             /\ inBoxAt leb box x y j = true
             /\ forall k, (s <= k < j)%nat -> inBoxAt leb box x y k = false)
  \/ (firstInBox_loop leb (seq s n) x y box = ret (-1)%Z
      /\ forall k, (s <= k < s + n)%nat -> inBoxAt leb box x y k = false).
Proof.
  revert s. induction n as [| n IH]; intros s Hx Hy.
  - right. split; [reflexivity | intros k Hk; lia].
  - cbn [seq]. rewrite firstInBox_loop_step by lia.
    destruct (inBoxAt leb box x y s) eqn:Es.
    + left. exists s.
      split; [lia |]. split; [reflexivity |]. split; [exact Es |].
      intros k Hk. lia.
    + destruct (IH (S s)) as [[j [Hj [Hr [Hin Hbefore]]]] | [Hr Hnone]];
        try lia.
      * left. exists j.
        split; [lia |]. split; [assumption |]. split; [assumption |].
        intros k Hk. destruct (Nat.eq_dec k s) as [-> | Hne];
          [assumption | apply Hbefore; lia].
      * right. split; [assumption |].
        intros k Hk. destruct (Nat.eq_dec k s) as [-> | Hne];
          [assumption | apply Hnone; lia].
Qed.

(** What [firstInBox] returns on two arrays of the same length. *)
Lemma firstInBox_cases (x y : list T) (box : Box T) :
  length x = length y ->
  (exists j, (j < length x)%nat
             /\ firstInBox leb x y box = ret (Z.of_nat j)
             /\ inBoxAt leb box x y j = true
             /\ forall k, (k < j)%nat -> inBoxAt leb box x y k = false)
  \/ (firstInBox leb x y box = ret (-1)%Z
      /\ forall k, inBoxAt leb box x y k = false).
Proof.
  intros Hlen. unfold firstInBox.
  destruct (firstInBox_loop_seq (length x) 0 x y box)
    as [[j [Hj [Hr [Hin Hbefore]]]] | [Hr Hnone]]; try lia.
  - left. exists j.
    split; [lia |]. split; [assumption |]. split; [assumption |].
    intros k Hk. apply Hbefore. lia.
  - right. split; [assumption |].
    intros k. destruct (Nat.lt_ge_cases k (length x)) as [Hk | Hk].
    + apply Hnone. lia.
    + unfold inBoxAt.
      destruct (nth_error x k) eqn:E; [| reflexivity].
      assert (nth_error x k <> None) as Hn by congruence.
      apply nth_error_Some in Hn. lia.
Qed.

Lemma firstInBox_none (x y : list T) (box : Box T) :
  length x = length y ->
  (forall k, inBoxAt leb box x y k = false) ->
  firstInBox leb x y box = ret (-1)%Z.
Proof.
  intros Hlen Hnone.
  destruct (firstInBox_cases x y box Hlen)
    as [[j [_ [_ [Hin _]]]] | [Hr _]]; [| exact Hr].
  rewrite Hnone in Hin. discriminate Hin.
Qed.

Lemma firstInBox_first (x y : list T) (box : Box T) (j : nat) :
  length x = length y ->
  inBoxAt leb box x y j = true ->
  (forall k, (k < j)%nat -> inBoxAt leb box x y k = false) ->
  firstInBox leb x y box = ret (Z.of_nat j).
Proof.
  intros Hlen Hin Hbefore.
  destruct (firstInBox_cases x y box Hlen)
    as [[i [_ [Hr [Hi Hbi]]]] | [_ Hnone]].
  - destruct (Nat.lt_trichotomy i j) as [Hlt | [-> | Hgt]].
    + rewrite (Hbefore i Hlt) in Hi. discriminate Hi.
    + exact Hr.
    + rewrite (Hbi j Hgt) in Hin. discriminate Hin.
  - rewrite Hnone in Hin. discriminate Hin.
Qed.

(** [inBoxAt] spelled out: the point exists and all four inclusive
    comparisons hold. *)
Lemma inBoxAt_true (box : Box T) (x y : list T) (j : nat) :
  inBoxAt leb box x y j = true <->
  exists px py,
    nth_error x j = Some px /\ nth_error y j = Some py
    /\ leb (box_left box) px = true /\ leb px (box_right box) = true
    /\ leb (box_bottom box) py = true /\ leb py (box_top box) = true.
Proof.
  unfold inBoxAt, inBox, between. split.
  - destruct (nth_error x j) as [px |]; [| discriminate].
    destruct (nth_error y j) as [py |]; [| discriminate].
    intros H. apply andb_prop in H. destruct H as [H1 H2].
    apply andb_prop in H1. apply andb_prop in H2.
    exists px, py. intuition.
  - intros [px [py [-> [-> [H1 [H2 [H3 H4]]]]]]].
    rewrite H1, H2, H3, H4. reflexivity.
Qed.

Lemma endTrajectory_none (x y : list T) (box : Box T) :
  length x = length y ->
  (forall k, inBoxAt leb box x y k = false) ->
  endTrajectoryAtIntersection leb x y box = ret (x, y).
Proof.
  intros Hlen Hnone. unfold endTrajectoryAtIntersection.
  rewrite (firstInBox_none x y box Hlen Hnone). reflexivity.
Qed.

Lemma endTrajectory_first (x y : list T) (box : Box T) (j : nat) :
  length x = length y ->
  inBoxAt leb box x y j = true ->
  (forall k, (k < j)%nat -> inBoxAt leb box x y k = false) ->
  endTrajectoryAtIntersection leb x y box = ret (firstn j x, firstn j y).
Proof.
  intros Hlen Hin Hbefore. unfold endTrajectoryAtIntersection.
  rewrite (firstInBox_first x y box j Hlen Hin Hbefore). cbn [bind ret].
  destruct (Z.ltb_spec (Z.of_nat j) 0) as [Hneg | _]; [lia |].
  unfold slice_to. rewrite Nat2Z.id. reflexivity.
Qed.

Lemma inBoxAt_lt (box : Box T) (x y : list T) (j : nat) :
  inBoxAt leb box x y j = true -> (j < length x)%nat /\ (j < length y)%nat.
Proof.
  unfold inBoxAt. intros H.
  destruct (nth_error x j) eqn:Ex; [| discriminate H].
  destruct (nth_error y j) eqn:Ey; [| discriminate H].
  split; apply nth_error_Some; congruence.
Qed.

(** A point of a prefix is the point of the whole sequence. *)
Lemma inBoxAt_firstn (box : Box T) (x y : list T) (n k : nat) :
  inBoxAt leb box (firstn n x) (firstn n y) k =
    if (k <? n)%nat then inBoxAt leb box x y k else false.
Proof.
  unfold inBoxAt. destruct (Nat.ltb_spec k n) as [Hk | Hk].
  - rewrite !nth_error_firstn.
    destruct (Nat.ltb_spec k n); [reflexivity | lia].
  - rewrite !nth_error_firstn.
    destruct (Nat.ltb_spec k n); [lia | reflexivity].
Qed.

(** The two arrays [endTrajectoryAtIntersection] returns are always the
    first [n] points of its input, where [n] is the first index in the
    box, or the number of points when there is none. *)
Lemma endTrajectory_cases (x y : list T) (box : Box T) :
  length x = length y ->
  exists n, (n <= length x)%nat
            /\ endTrajectoryAtIntersection leb x y box
               = ret (firstn n x, firstn n y)
            /\ (forall k, (k < n)%nat -> inBoxAt leb box x y k = false)
            /\ ((inBoxAt leb box x y n = true
                 /\ firstInBox leb x y box = ret (Z.of_nat n))
                \/ (n = length x /\ firstInBox leb x y box = ret (-1)%Z)).
Proof.
  intros Hlen.
  destruct (firstInBox_cases x y box Hlen)
    as [[j [Hj [Hr [Hin Hbefore]]]] | [Hr Hnone]].
  - exists j. split; [lia |].
    split; [apply endTrajectory_first; assumption |].
    split; [exact Hbefore |]. left. split; assumption.
  - exists (length x). split; [lia |]. split.
    + rewrite firstn_all, Hlen, firstn_all.
      apply endTrajectory_none; assumption.
    + split; [intros k _; apply Hnone |]. right. split; [reflexivity | exact Hr].
Qed.

(** The scan of a sequence reports a hit ([0 <= i]) exactly when some
    point of the sequence lies in the box. *)
Lemma firstInBox_hit_iff (x y : list T) (box : Box T) :
  length x = length y ->
  exists i, firstInBox leb x y box = ret i
            /\ ((0 <=? i)%Z = true <-> exists j, inBoxAt leb box x y j = true).
Proof.
  intros Hlen.
  destruct (firstInBox_cases x y box Hlen)
    as [[j [Hj [Hr [Hin Hbefore]]]] | [Hr Hnone]].
  - exists (Z.of_nat j). split; [exact Hr |]. split.
    + intros _. exists j. exact Hin.
    + intros _. apply Z.leb_le. lia.
  - exists (-1)%Z. split; [exact Hr |]. split.
    + intros H. discriminate H.
    + intros [j Hj]. rewrite Hnone in Hj. discriminate Hj.
Qed.

(** C3.  On a point sequence (two arrays of the same length)
    [firstInBox] never fails; it returns either the lowest index [j]
    whose point satisfies [left <= x[j] <= right] and
    [bottom <= y[j] <= top], or [-1], and [-1] exactly when no point of
    the sequence lies in the box. *)
Theorem firstInBox_lowest_index (x y : list T) (box : Box T) :
  length x = length y ->
  (exists j, (j < length x)%nat
             /\ firstInBox leb x y box = ret (Z.of_nat j)
             /\ inBoxAt leb box x y j = true
             /\ forall k, (k < j)%nat -> inBoxAt leb box x y k = false)
  \/ (firstInBox leb x y box = ret (-1)%Z
      /\ forall k, inBoxAt leb box x y k = false).
Proof.
  intros Hlen. exact (firstInBox_cases x y box Hlen).
Qed.

(** C4.  When no point of the sequence lies in the box,
    [endTrajectoryAtIntersection] returns its two input arrays
    unchanged. *)
Theorem endTrajectory_identity (x y : list T) (box : Box T) :
  length x = length y ->
  (forall k, inBoxAt leb box x y k = false) ->
  endTrajectoryAtIntersection leb x y box = ret (x, y).
Proof.
  intros Hlen Hnone. apply endTrajectory_none; assumption.
Qed.

(** C5.  When [j] is the first index whose point lies in the box,
    [endTrajectoryAtIntersection] returns the points of indices
    [0 .. j-1]: exactly [j] points, the point [j] not among them. *)
Theorem endTrajectory_prefix (x y : list T) (box : Box T) (j : nat) :
  length x = length y ->
  inBoxAt leb box x y j = true ->
  (forall k, (k < j)%nat -> inBoxAt leb box x y k = false) ->
  endTrajectoryAtIntersection leb x y box = ret (firstn j x, firstn j y)
  /\ length (firstn j x) = j /\ length (firstn j y) = j
  /\ (forall k, (k < j)%nat ->
        nth_error (firstn j x) k = nth_error x k
        /\ nth_error (firstn j y) k = nth_error y k)
  /\ nth_error (firstn j x) j = None /\ nth_error (firstn j y) j = None.
Proof.
  intros Hlen Hin Hbefore.
  destruct (inBoxAt_lt box x y j Hin) as [Hjx Hjy].
  split; [apply endTrajectory_first; assumption |].
  assert (length (firstn j x) = j) as Lx by (rewrite length_firstn; lia).
  assert (length (firstn j y) = j) as Ly by (rewrite length_firstn; lia).
  split; [exact Lx |]. split; [exact Ly |]. split.
  - intros k Hk. rewrite !nth_error_firstn.
    destruct (Nat.ltb_spec k j); [split; reflexivity | lia].
  - split; apply nth_error_None; lia.
Qed.

End ScanFacts.

(** ** The sampled flight *)

Section TrajectoryFacts.

Lemma set_last_length (y : list R) (stop : R) :
  y <> [] -> length (set_last y stop) = length y.
Proof.
  intros Hy. unfold set_last.
  rewrite length_app, removelast_firstn_len, length_firstn. simpl.
  destruct y as [| a y']; [congruence | simpl; lia].
Qed.

Lemma set_last_nth_before (y : list R) (stop : R) (k : nat) :
  (S k < length y)%nat -> nth_error (set_last y stop) k = nth_error y k.
Proof.
  intros Hk. unfold set_last.
  rewrite removelast_firstn_len.
  rewrite nth_error_app1 by (rewrite length_firstn; lia).
  rewrite nth_error_firstn.
  destruct (Nat.ltb_spec k (pred (length y))); [reflexivity | lia].
Qed.

Lemma set_last_nth_last (y : list R) (stop : R) :
  y <> [] -> nth_error (set_last y stop) (length y - 1) = Some stop.
Proof.
  intros Hy. unfold set_last.
  rewrite removelast_firstn_len.
  assert (length (firstn (pred (length y)) y) = (length y - 1)%nat) as L
    by (rewrite length_firstn; lia).
  rewrite nth_error_app2 by lia.
  rewrite L, Nat.sub_diag. reflexivity.
Qed.

Lemma arange_nth (n k : nat) :
  (k < n)%nat -> nth_error (map INR (seq 0 n)) k = Some (INR k).
Proof.
  intros Hk. rewrite nth_error_map, nth_error_seq.
  destruct (Nat.ltb_spec k n); [reflexivity | lia].
Qed.

Lemma linspace_length (start stop : R) (num : N) :
  length (linspace start stop num) = N.to_nat num.
Proof.
  unfold linspace.
  set (arange := map INR (seq 0 (N.to_nat num))).
  assert (length arange = N.to_nat num) as La
    by (unfold arange; rewrite length_map, length_seq; reflexivity).
  destruct (N.ltb_spec 1 num) as [Hn | Hn].
  - rewrite set_last_length.
    + destruct (0 <? Z.of_N num - 1)%Z; rewrite length_map; exact La.
    + destruct (0 <? Z.of_N num - 1)%Z; intros E;
        apply (f_equal (@length R)) in E; rewrite length_map, La in E;
        simpl in E; lia.
  - destruct (0 <? Z.of_N num - 1)%Z; rewrite length_map; exact La.
Qed.

(** With at least two samples, sample [k] is [start + k * step]; this
    also holds of the last sample, which is [stop]. *)
Lemma linspace_nth (start stop : R) (num : N) (k : nat) :
  (1 < num)%N -> (k < N.to_nat num)%nat ->
  exists tk, nth_error (linspace start stop num) k = Some tk
             /\ tk = start + INR k * ((stop - start) / INR (N.to_nat num - 1)).
Proof.
  intros Hn Hk. unfold linspace.
  destruct (N.ltb_spec 1 num) as [_ | Hle]; [| lia].
  destruct (Z.ltb_spec 0 (Z.of_N num - 1)) as [_ | Hle]; [| lia].
  set (n := N.to_nat num) in *.
  assert (IZR (Z.of_N num - 1) = INR (n - 1)) as Hdiv.
  { rewrite INR_IZR_INZ. f_equal. unfold n. lia. }
  rewrite Hdiv.
  set (y := map (fun i => i * ((stop - start) / INR (n - 1)) + start)
                (map INR (seq 0 n))).
  assert (length y = n) as Ly
    by (unfold y; rewrite !length_map, length_seq; reflexivity).
  assert (INR (n - 1) <> 0) as Hnz by (apply not_0_INR; unfold n; lia).
  destruct (Nat.eq_dec k (n - 1)) as [-> | Hne].
  - exists stop. split.
    + rewrite <- Ly at 1. apply set_last_nth_last.
      intros E. rewrite E in Ly. simpl in Ly. unfold n in Ly. lia.
    + field. exact Hnz.
  - exists (INR k * ((stop - start) / INR (n - 1)) + start). split.
    + rewrite set_last_nth_before by lia.
      unfold y. rewrite nth_error_map, arange_nth by exact Hk. reflexivity.
    + ring.
Qed.

Lemma linspace_last (start stop : R) (num : N) :
  (1 < num)%N ->
  nth_error (linspace start stop num) (N.to_nat num - 1) = Some stop.
Proof.
  intros Hn. unfold linspace.
  destruct (N.ltb_spec 1 num) as [_ | Hle]; [| lia].
  set (y := if (0 <? Z.of_N num - 1)%Z then _ else _).
  assert (length y = N.to_nat num) as Ly
    by (unfold y; destruct (0 <? Z.of_N num - 1)%Z;
        rewrite !length_map, length_seq; reflexivity).
  rewrite <- Ly. apply set_last_nth_last.
  intros E. rewrite E in Ly. simpl in Ly. lia.
Qed.

(** When [g] is not zero, [trajectory] returns the two arrays computed
    from the sampled times. *)
Lemma trajectory_ret (x0 y0 v theta g : R) (npts : N) :
  g <> 0 ->
  trajectory x0 y0 v theta g npts =
    ret (map (fun ti => x0 + v * cos (deg2rad theta) * ti)
             (linspace 0 (tfinal (v * sin (deg2rad theta)) y0 g) npts),
         map (fun ti => y0 + v * sin (deg2rad theta) * ti - 0.5 * g * ti ^ 2)
             (linspace 0 (tfinal (v * sin (deg2rad theta)) y0 g) npts)).
Proof.
  intros Hg. unfold trajectory.
  destruct (Req_dec_T g 0) as [E | _]; [contradiction | reflexivity].
Qed.

Lemma trajectory_zero_gravity (x0 y0 v theta : R) (npts : N) :
  trajectory x0 y0 v theta 0 npts = raise ZeroDivisionError.
Proof.
  unfold trajectory.
  destruct (Req_dec_T 0 0) as [_ | Hne]; [reflexivity | congruence].
Qed.

Lemma trajectory_lengths (x0 y0 v theta g : R) (npts : N) (x y : list R) :
  trajectory x0 y0 v theta g npts = ret (x, y) ->
  length x = N.to_nat npts /\ length y = N.to_nat npts.
Proof.
  unfold trajectory. destruct (Req_dec_T g 0) as [_ | _]; [discriminate |].
  intros H. injection H as <- <-.
  rewrite !length_map, linspace_length. split; reflexivity.
Qed.

(** *** The flight time *)

Lemma radicand_pos (vy y0 g : R) :
  0 < g -> 0 < y0 -> 0 < (vy / g) ^ 2 + 2 * y0 / g.
Proof.
  intros Hg Hy.
  assert (0 <= (vy / g) ^ 2) by (apply pow2_ge_0).
  assert (0 < 2 * y0 / g) by (apply Rdiv_lt_0_compat; lra).
  lra.
Qed.

(** The facts about [tfinal] all come from this decomposition:
    [tfinal = a + s] with [a = vy / g], [s > 0] and
    [g * s^2 = g * a^2 + 2 * y0]. *)
Lemma tfinal_decompose (vy y0 g : R) :
  0 < g -> 0 < y0 ->
  exists a s, tfinal vy y0 g = a + s /\ vy = a * g /\ 0 < s
              /\ g * (s * s) = g * (a * a) + 2 * y0.
Proof.
  intros Hg Hy.
  pose proof (radicand_pos vy y0 g Hg Hy) as Hrad.
  exists (vy / g), (sqrt ((vy / g) ^ 2 + 2 * y0 / g)).
  split; [reflexivity |].
  split; [field; lra |].
  split; [apply sqrt_lt_R0; exact Hrad |].
  rewrite sqrt_sqrt by lra. field. lra.
Qed.


Lemma tfinal_root (vy y0 g : R) :
  0 < g -> 0 < y0 ->
  0.5 * g * tfinal vy y0 g ^ 2 - vy * tfinal vy y0 g - y0 = 0.
Proof.
  intros Hg Hy.
  destruct (tfinal_decompose vy y0 g Hg Hy) as [a [s [-> [-> [Hs Hss]]]]].
  nra.
Qed.



(** With no vertical speed the flight time is that of a free fall. *)
Lemma tfinal_drop (y0 g : R) :
  tfinal 0 y0 g = sqrt (2 * y0 / g).
Proof.
  unfold tfinal. replace (0 / g) with 0 by (unfold Rdiv; ring).
  rewrite Rplus_0_l. f_equal. ring.
Qed.

(** *** The samples of a trajectory *)

Lemma Rleb_true (a b : R) : a <= b -> Rleb a b = true.
Proof.
  intros H. unfold Rleb. destruct (Rle_dec a b); [reflexivity | contradiction].
Qed.

Lemma Rleb_false (a b : R) : b < a -> Rleb a b = false.
Proof.
  intros H. unfold Rleb. destruct (Rle_dec a b); [lra | reflexivity].
Qed.

Lemma Rleb_le (a b : R) : Rleb a b = true <-> a <= b.
Proof.
  unfold Rleb. destruct (Rle_dec a b); split; intros H;
    try assumption; try reflexivity; try discriminate; contradiction.
Qed.

(** With at least two samples, sample [k] of a trajectory is the
    position at time [k * (tfinal / (npts - 1))]. *)
Lemma trajectory_nth (x0 y0 v theta g : R) (npts : N) (x y : list R)
  (k : nat) :
  (1 < npts)%N ->
  trajectory x0 y0 v theta g npts = ret (x, y) ->
  (k < N.to_nat npts)%nat ->
  exists tk,
    tk = INR k * (tfinal (v * sin (deg2rad theta)) y0 g
                  / INR (N.to_nat npts - 1))
    /\ nth_error x k = Some (x0 + v * cos (deg2rad theta) * tk)
    /\ nth_error y k
       = Some (y0 + v * sin (deg2rad theta) * tk - 0.5 * g * tk ^ 2).
Proof.
  intros Hn Htraj Hk. unfold trajectory in Htraj.
  destruct (Req_dec_T g 0) as [_ | _]; [discriminate Htraj |].
  injection Htraj as <- <-.
  destruct (linspace_nth 0 (tfinal (v * sin (deg2rad theta)) y0 g) npts k
              Hn Hk) as [tk [Ht Etk]].
  exists tk. split.
  - rewrite Etk. unfold Rdiv. ring.
  - rewrite !nth_error_map, Ht. split; reflexivity.
Qed.

(** The last sample is the position at time [tfinal]. *)
Lemma trajectory_last (x0 y0 v theta g : R) (npts : N) (x y : list R) :
  (1 < npts)%N ->
  trajectory x0 y0 v theta g npts = ret (x, y) ->
  let tf := tfinal (v * sin (deg2rad theta)) y0 g in
  nth_error x (N.to_nat npts - 1) = Some (x0 + v * cos (deg2rad theta) * tf)
  /\ nth_error y (N.to_nat npts - 1)
     = Some (y0 + v * sin (deg2rad theta) * tf - 0.5 * g * tf ^ 2).
Proof.
  intros Hn Htraj tf. unfold trajectory in Htraj.
  destruct (Req_dec_T g 0) as [_ | _]; [discriminate Htraj |].
  injection Htraj as <- <-.
  rewrite !nth_error_map, (linspace_last 0 _ npts Hn). split; reflexivity.
Qed.

(** Sample times lie between [0] and the flight time. *)
Lemma sample_time_bounds (tf : R) (n k : nat) :
  0 <= tf -> (k < n)%nat ->
  0 <= INR k * (tf / INR (n - 1)) <= tf.
Proof.
  intros Htf Hk.
  destruct (Nat.eq_dec n 1) as [-> | Hn1].
  - assert (k = 0)%nat as -> by lia. simpl. lra.
  - assert (0 < INR (n - 1)) as Hm by (apply lt_0_INR; lia).
    assert (0 <= INR k) as Hk0 by apply pos_INR.
    assert (INR k <= INR (n - 1)) as Hkm by (apply le_INR; lia).
    assert (0 <= tf / INR (n - 1)) as Hq
      by (apply Rmult_le_pos; [lra | left; apply Rinv_0_lt_compat; lra]).
    split; [apply Rmult_le_pos; assumption |].
    replace tf with (INR (n - 1) * (tf / INR (n - 1))) at 2
      by (field; lra).
    apply Rmult_le_compat_r; assumption.
Qed.

End TrajectoryFacts.

(** ** One shot *)

Section ShotFacts.

Variables targetBox obstacleBox : Box R.
Variables x0 y0 v theta g : R.

(** [tankShot] unfolded along a computed trajectory. *)
Lemma tankShot_unfold (x y : list R) :
  trajectory x0 y0 v theta g 10000 = ret (x, y) ->
  tankShot targetBox obstacleBox x0 y0 v theta g =
    (xy' <- endTrajectoryAtIntersection Rleb x y obstacleBox ;;
     i <- firstInBox Rleb (fst xy') (snd xy') targetBox ;;
     ret (0 <=? i)%Z).
Proof.
  intros Htraj. unfold tankShot. rewrite Htraj. reflexivity.
Qed.

(** The shot, in terms of the number [n] of points left by the
    truncation at the obstacle. *)
Lemma tankShot_cut (x y : list R) :
  trajectory x0 y0 v theta g 10000 = ret (x, y) ->
  exists n b,
    endTrajectoryAtIntersection Rleb x y obstacleBox
      = ret (firstn n x, firstn n y)
    /\ (forall k, (k < n)%nat -> inBoxAt Rleb obstacleBox x y k = false)
    /\ ((inBoxAt Rleb obstacleBox x y n = true
         /\ firstInBox Rleb x y obstacleBox = ret (Z.of_nat n))
        \/ (n = length x /\ firstInBox Rleb x y obstacleBox = ret (-1)%Z))
    /\ tankShot targetBox obstacleBox x0 y0 v theta g = ret b
    /\ (b = true <->
        exists j, (j < n)%nat /\ inBoxAt Rleb targetBox x y j = true).
Proof.
  intros Htraj.
  destruct (trajectory_lengths _ _ _ _ _ _ _ _ Htraj) as [Lx Ly].
  assert (length x = length y) as Hlen by congruence.
  destruct (endTrajectory_cases R Rleb x y obstacleBox Hlen)
    as [n [Hn [Hend [Hclear Hwhy]]]].
  assert (length (firstn n x) = length (firstn n y)) as Hlen'
    by (rewrite !length_firstn; lia).
  destruct (firstInBox_hit_iff R Rleb _ _ targetBox Hlen')
    as [i [Hi Hiff]].
  exists n, (0 <=? i)%Z.
  split; [exact Hend |]. split; [exact Hclear |]. split; [exact Hwhy |].
  split.
  - rewrite (tankShot_unfold x y Htraj), Hend. cbn [bind ret fst snd].
    rewrite Hi. reflexivity.
  - rewrite Hiff. split.
    + intros [j Hj]. rewrite inBoxAt_firstn in Hj.
      destruct (Nat.ltb_spec j n) as [Hlt | _]; [| discriminate Hj].
      exists j. split; assumption.
    + intros [j [Hlt Hj]]. exists j. rewrite inBoxAt_firstn.
      destruct (Nat.ltb_spec j n); [exact Hj | lia].
Qed.

(** A shot returns a result whenever gravity is not zero. *)
Lemma tankShot_returns :
  g <> 0 -> exists b, tankShot targetBox obstacleBox x0 y0 v theta g = ret b.
Proof.
  intros Hg.
  destruct (tankShot_cut _ _ (trajectory_ret x0 y0 v theta g 10000 Hg))
    as [n [b [_ [_ [_ [Hb _]]]]]].
  exists b. exact Hb.
Qed.

(** A trajectory with no point in the target box is a miss. *)
Lemma tankShot_no_target_point (x y : list R) :
  trajectory x0 y0 v theta g 10000 = ret (x, y) ->
  (forall k, inBoxAt Rleb targetBox x y k = false) ->
  tankShot targetBox obstacleBox x0 y0 v theta g = ret false.
Proof.
  intros Htraj Hnone.
  destruct (tankShot_cut x y Htraj) as [n [b [_ [_ [_ [Hb Hiff]]]]]].
  rewrite Hb. destruct b; [| reflexivity].
  destruct (proj1 Hiff eq_refl) as [j [_ Hj]].
  rewrite Hnone in Hj. discriminate Hj.
Qed.


(** A trajectory that is in the target box at index [j] and at no
    index up to [j] in the obstacle box is a hit. *)
Lemma tankShot_target_first (x y : list R) (j : nat) :
  trajectory x0 y0 v theta g 10000 = ret (x, y) ->
  inBoxAt Rleb targetBox x y j = true ->
  (forall k, (k <= j)%nat -> inBoxAt Rleb obstacleBox x y k = false) ->
  tankShot targetBox obstacleBox x0 y0 v theta g = ret true.
Proof.
  intros Htraj Htgt Hclear.
  destruct (tankShot_cut x y Htraj) as [n [b [_ [_ [Hwhy [Hb Hiff]]]]]].
  rewrite Hb. f_equal. apply Hiff. exists j. split; [| exact Htgt].
  destruct (inBoxAt_lt R Rleb _ _ _ _ Htgt) as [Hjx _].
  destruct Hwhy as [[Hobs _] | [-> _]]; [| exact Hjx].
  destruct (Nat.lt_ge_cases j n) as [Hlt | Hge]; [exact Hlt |].
  rewrite (Hclear n) in Hobs by lia. discriminate Hobs.
Qed.

End ShotFacts.

(** ** The vertical drop *)

Section DropFacts.

Variables x0 y0 theta g : R.
Hypothesis g_pos : 0 < g.
Hypothesis y0_pos : 0 < y0.

(** With [v = 0] sample [k] is straight below the origin, at the
    height [y0 * (1 - (k / (npts - 1))^2)]. *)
Lemma drop_sample (npts : N) (x y : list R) (k : nat) :
  (1 < npts)%N ->
  trajectory x0 y0 0 theta g npts = ret (x, y) ->
  (k < N.to_nat npts)%nat ->
  exists px py,
    nth_error x k = Some px /\ nth_error y k = Some py
    /\ px = x0
    /\ py = y0 * (1 - (INR k / INR (N.to_nat npts - 1)) ^ 2).
Proof.
  intros Hn Htraj Hk.
  destruct (trajectory_nth _ _ _ _ _ _ _ _ k Hn Htraj Hk)
    as [tk [Etk [Hx Hy]]].
  pose proof (tfinal_root (0 * sin (deg2rad theta)) y0 g g_pos y0_pos)
    as Hroot.
  set (tf := tfinal (0 * sin (deg2rad theta)) y0 g) in *.
  assert (INR (N.to_nat npts - 1) <> 0) as Hm by (apply not_0_INR; lia).
  set (m := INR (N.to_nat npts - 1)) in *.
  assert (0.5 * g * tf ^ 2 = y0) as Hfall by lra.
  eexists. eexists. split; [exact Hx |]. split; [exact Hy |]. split.
  - ring.
  - rewrite Etk.
    replace (y0 + 0 * sin (deg2rad theta) * (INR k * (tf / m))
             - 0.5 * g * (INR k * (tf / m)) ^ 2)
      with (y0 - (0.5 * g * tf ^ 2) * (INR k / m) ^ 2) by (field; exact Hm).
    rewrite Hfall. ring.
Qed.

Lemma drop_fraction (n k : nat) :
  (1 < n)%nat -> (k < n)%nat ->
  0 <= 1 - (INR k / INR (n - 1)) ^ 2 <= 1.
Proof.
  intros Hn Hk.
  assert (0 < INR (n - 1)) as Hm by (apply lt_0_INR; lia).
  assert (0 <= INR k) as Hk0 by apply pos_INR.
  assert (INR k <= INR (n - 1)) as Hkm by (apply le_INR; lia).
  assert (0 <= INR k / INR (n - 1)) as Hq0
    by (apply Rmult_le_pos; [lra | left; apply Rinv_0_lt_compat; lra]).
  assert (INR k / INR (n - 1) <= 1) as Hq1.
  { apply Rmult_le_reg_r with (INR (n - 1)); [exact Hm |].
    replace (INR k / INR (n - 1) * INR (n - 1)) with (INR k)
      by (field; lra).
    lra. }
  nra.
Qed.

(** Every sample of the drop lies on the segment from [(x0, y0)] down
    to [(x0, 0)]. *)
Lemma drop_on_segment (npts : N) (x y : list R) (k : nat) :
  (1 < npts)%N ->
  trajectory x0 y0 0 theta g npts = ret (x, y) ->
  (k < N.to_nat npts)%nat ->
  exists py, nth_error x k = Some x0 /\ nth_error y k = Some py
             /\ 0 <= py <= y0.
Proof.
  intros Hn Htraj Hk.
  destruct (drop_sample npts x y k Hn Htraj Hk)
    as [px [py [Hx [Hy [-> Epy]]]]].
  exists py. split; [exact Hx |]. split; [exact Hy |].
  pose proof (drop_fraction (N.to_nat npts) k ltac:(lia) Hk) as Hf.
  rewrite Epy. nra.
Qed.

(** A drop misses every target box that does not meet that segment. *)
Lemma drop_misses (targetBox obstacleBox : Box R) :
  (forall py, 0 <= py <= y0 -> inBox Rleb targetBox x0 py = false) ->
  tankShot targetBox obstacleBox x0 y0 0 theta g = ret false.
Proof.
  intros Hclear.
  assert (g <> 0) as Hg by lra.
  pose proof (trajectory_ret x0 y0 0 theta g 10000 Hg) as Htraj.
  apply tankShot_no_target_point with (1 := Htraj).
  intros k. destruct (Nat.lt_ge_cases k (N.to_nat 10000)) as [Hk | Hk].
  - destruct (drop_on_segment 10000 _ _ k ltac:(lia) Htraj Hk)
      as [py [Hx [Hy Hpy]]].
    unfold inBoxAt. rewrite Hx, Hy. apply Hclear. exact Hpy.
  - destruct (trajectory_lengths _ _ _ _ _ _ _ _ Htraj) as [Lx _].
    unfold inBoxAt.
    replace (nth_error _ k) with (@None R); [reflexivity |].
    symmetry. apply nth_error_None. rewrite Lx. exact Hk.
Qed.



End DropFacts.

(** ** The trajectory engine: the stated properties *)

Section EngineClaims.

Variables targetBox obstacleBox : Box R.
Variables x0 y0 v theta g : R.






End EngineClaims.

(** ** Reading a number from the console *)

Section ConsoleFacts.

Variable parse_float : string -> option R.
Variable prompt : string.
Variable validRange : ext * ext.

(** One iteration of [getNumberInput] on a line: the line is accepted and
    returned, or rejected and the loop goes on with the next line. *)
Lemma getNumberInput_line (fuel : nat) (line : string) (rest : list string)
  (out : list output) :
  getNumberInput parse_float (S fuel) prompt validRange
    (mkWorld (line :: rest) out) =
  match accepted parse_float validRange line with
  | Some num => Ret num (mkWorld rest (out ++ [Prompt prompt]))
  | None =>
      getNumberInput parse_float fuel prompt validRange
        (mkWorld rest ((out ++ [Prompt prompt])
                       ++ [rejection parse_float validRange line]))
  end.
Proof.
  unfold accepted, rejection.
  cbn [getNumberInput io_bind input stdin stdout].
  unfold lift, float.
  destruct (parse_float line) as [num |]; cbn [ret raise].
  - destruct (ext_leb (fst validRange) (Fin num)
              && ext_leb (Fin num) (snd validRange)); reflexivity.
  - reflexivity.
Qed.

(** One iteration at the end of the input: [EOFError] is caught and the
    loop goes on. *)
Lemma getNumberInput_eof (fuel : nat) (out : list output) :
  getNumberInput parse_float (S fuel) prompt validRange (mkWorld [] out) =
  getNumberInput parse_float fuel prompt validRange
    (mkWorld [] ((out ++ [Prompt prompt])
                 ++ [Printed "Please enter a number"])).
Proof. reflexivity. Qed.

Lemma getNumberInput_never_raises (fuel : nat) (w : world) (e : exn)
  (w' : world) :
  getNumberInput parse_float fuel prompt validRange w <> Raise e w'.
Proof.
  revert w. induction fuel as [| fuel IH]; intros [inp out].
  - discriminate.
  - destruct inp as [| line rest].
    + rewrite getNumberInput_eof. apply IH.
    + rewrite getNumberInput_line.
      destruct (accepted parse_float validRange line);
        [discriminate | apply IH].
Qed.

(** With only rejected lines before the end of the input the loop never
    ends. *)
Lemma getNumberInput_blocks (fuel : nat) (lines : list string)
  (out : list output) :
  (forall l, In l lines -> accepted parse_float validRange l = None) ->
  getNumberInput parse_float fuel prompt validRange (mkWorld lines out)
  = OutOfFuel.
Proof.
  revert lines out. induction fuel as [| fuel IH]; intros lines out Hrej.
  - reflexivity.
  - destruct lines as [| line rest].
    + rewrite getNumberInput_eof. apply IH. intros l [].
    + rewrite getNumberInput_line, (Hrej line) by (left; reflexivity).
      apply IH. intros l Hl. apply Hrej. right. exact Hl.
Qed.

(** After rejected lines, the first accepted line is returned. *)
Lemma getNumberInput_accepts (pre : list string) (line : string)
  (rest : list string) (num : R) (fuel : nat) (out : list output) :
  (forall l, In l pre -> accepted parse_float validRange l = None) ->
  accepted parse_float validRange line = Some num ->
  (length pre < fuel)%nat ->
  getNumberInput parse_float fuel prompt validRange
    (mkWorld (pre ++ line :: rest) out)
  = Ret num (mkWorld rest (out ++ reprompts parse_float prompt validRange pre
                               ++ [Prompt prompt])).
Proof.
  revert fuel out. induction pre as [| l pre IH]; intros fuel out Hrej Hacc Hf.
  - destruct fuel as [| fuel]; [simpl in Hf; lia |].
    cbn [app]. rewrite getNumberInput_line, Hacc. reflexivity.
  - destruct fuel as [| fuel]; [simpl in Hf; lia |].
    cbn [app]. rewrite getNumberInput_line, (Hrej l) by (left; reflexivity).
    rewrite IH.
    + unfold reprompts. cbn [flat_map]. rewrite <- !app_assoc. reflexivity.
    + intros l' Hl'. apply Hrej. right. exact Hl'.
    + exact Hacc.
    + simpl in Hf. lia.
Qed.

(** A returned number is the first accepted line of the input. *)
Lemma getNumberInput_returned (fuel : nat) (w : world) (num : R) (w' : world) :
  getNumberInput parse_float fuel prompt validRange w = Ret num w' ->
  exists pre line,
    stdin w = pre ++ line :: stdin w'
    /\ (forall l, In l pre -> accepted parse_float validRange l = None)
    /\ accepted parse_float validRange line = Some num
    /\ stdout w' = stdout w ++ reprompts parse_float prompt validRange pre
                            ++ [Prompt prompt].
Proof.
  revert w. induction fuel as [| fuel IH]; intros [inp out] Hret.
  - discriminate Hret.
  - destruct inp as [| line rest].
    + rewrite getNumberInput_eof in Hret.
      destruct (IH _ Hret) as [pre [l [Hin _]]].
      cbn [stdin] in Hin. destruct pre; discriminate Hin.
    + rewrite getNumberInput_line in Hret.
      destruct (accepted parse_float validRange line) as [num' |] eqn:Hacc.
      * injection Hret as -> <-. exists [], line. cbn [stdin stdout app].
        split; [reflexivity |]. split; [intros l [] |].
        split; [exact Hacc | reflexivity].
      * destruct (IH _ Hret) as [pre [l [Hin [Hrej [Hl Hout]]]]].
        cbn [stdin stdout] in Hin, Hout.
        exists (line :: pre), l. cbn [stdin stdout].
        split; [rewrite Hin; reflexivity |]. split.
        -- intros l' [<- | Hl']; [exact Hacc | apply Hrej; exact Hl'].
        -- split; [exact Hl |]. rewrite Hout. unfold reprompts.
           cbn [flat_map]. rewrite <- !app_assoc. reflexivity.
Qed.

(** An accepted line parses to the number and lies in the range. *)
Lemma accepted_some (line : string) (num : R) :
  accepted parse_float validRange line = Some num <->
  parse_float line = Some num
  /\ ext_leb (fst validRange) (Fin num) = true
  /\ ext_leb (Fin num) (snd validRange) = true.
Proof.
  unfold accepted. destruct (parse_float line) as [n |].
  - destruct (ext_leb (fst validRange) (Fin n)) eqn:E1;
      destruct (ext_leb (Fin n) (snd validRange)) eqn:E2; cbn [andb];
      split; intros H;
      try discriminate H;
      try (injection H as <-; auto);
      try (destruct H as [H [H1 H2]]; injection H as <-; congruence).
  - split; [discriminate | intros [H _]; discriminate H].
Qed.

(** More fuel does not change a run that ended. *)
Lemma getNumberInput_mono (fuel fuel' : nat) (w : world) :
  (fuel <= fuel')%nat ->
  finished (getNumberInput parse_float fuel prompt validRange w) ->
  getNumberInput parse_float fuel' prompt validRange w
  = getNumberInput parse_float fuel prompt validRange w.
Proof.
  revert fuel' w. induction fuel as [| fuel IH]; intros fuel' [inp out] Hle Hfin.
  - exfalso. apply Hfin. reflexivity.
  - destruct fuel' as [| fuel']; [lia |].
    destruct inp as [| line rest].
    + rewrite !getNumberInput_eof. rewrite getNumberInput_eof in Hfin.
      apply IH; [lia | exact Hfin].
    + rewrite !getNumberInput_line. rewrite getNumberInput_line in Hfin.
      destruct (accepted parse_float validRange line); [reflexivity |].
      apply IH; [lia | exact Hfin].
Qed.

End ConsoleFacts.

(** ** Turns *)

Section TurnFacts.

Variable parse_float : string -> option R.
Variables tank1box tank2box obstacleBox : Box R.
Variable g : R.

Lemma finished_ret (A : Type) (a : A) (w : world) : finished (Ret a w).
Proof. discriminate. Qed.

Lemma finished_raise (A : Type) (e : exn) (w : world) :
  finished (@Raise A e w).
Proof. discriminate. Qed.

Lemma oneTurn_mono (fuel fuel' : nat) (p : Z) (w : world) :
  (fuel <= fuel')%nat ->
  finished (oneTurn parse_float fuel tank1box tank2box obstacleBox p g w) ->
  oneTurn parse_float fuel' tank1box tank2box obstacleBox p g w
  = oneTurn parse_float fuel tank1box tank2box obstacleBox p g w.
Proof.
  intros Hle Hfin. unfold oneTurn, io_bind in *.
  destruct (getNumberInput parse_float fuel _ default_range w)
    as [vel w1 | e w1 |] eqn:E1.
  - rewrite (getNumberInput_mono parse_float _ _ fuel fuel' w Hle)
      by (rewrite E1; apply finished_ret).
    rewrite E1.
    destruct (getNumberInput parse_float fuel _ default_range w1)
      as [th w2 | e w2 |] eqn:E2.
    + rewrite (getNumberInput_mono parse_float _ _ fuel fuel' w1 Hle)
        by (rewrite E2; apply finished_ret).
      rewrite E2. reflexivity.
    + rewrite (getNumberInput_mono parse_float _ _ fuel fuel' w1 Hle)
        by (rewrite E2; apply finished_raise).
      rewrite E2. reflexivity.
    + exfalso. apply Hfin. reflexivity.
  - rewrite (getNumberInput_mono parse_float _ _ fuel fuel' w Hle)
      by (rewrite E1; apply finished_raise).
    rewrite E1. reflexivity.
  - exfalso. apply Hfin. reflexivity.
Qed.

(** The loop body when the turn is won: the loop breaks with the
    winner. *)
Lemma playGame_loop_hit (fuel : nat) (p r : Z) (w w1 : world) :
  oneTurn parse_float fuel tank1box tank2box obstacleBox p g w = Ret r w1 ->
  r <> 0%Z ->
  playGame_loop parse_float (S fuel) tank1box tank2box obstacleBox g p w
  = Ret r w1.
Proof.
  intros Hturn Hr. cbn [playGame_loop]. unfold io_bind. rewrite Hturn.
  destruct (Z.eqb_spec r 0) as [E | _]; [contradiction | reflexivity].
Qed.

(** The loop body when the turn is missed and acknowledged: the loop goes
    on with the other player. *)
Lemma playGame_loop_miss (fuel : nat) (p : Z) (w w1 w2 : world)
  (line : string) :
  oneTurn parse_float fuel tank1box tank2box obstacleBox p g w = Ret 0%Z w1 ->
  input "hit enter to continue >" w1 = Ret line w2 ->
  playGame_loop parse_float (S fuel) tank1box tank2box obstacleBox g p w
  = playGame_loop parse_float fuel tank1box tank2box obstacleBox g
      (next_player p) w2.
Proof.
  intros Hturn Hack. cbn [playGame_loop]. unfold io_bind.
  rewrite Hturn. cbn [Z.eqb negb]. rewrite Hack. reflexivity.
Qed.

Lemma playGame_loop_mono (fuel fuel' : nat) (p : Z) (w : world) :
  (fuel <= fuel')%nat ->
  finished (playGame_loop parse_float fuel tank1box tank2box obstacleBox g p w) ->
  playGame_loop parse_float fuel' tank1box tank2box obstacleBox g p w
  = playGame_loop parse_float fuel tank1box tank2box obstacleBox g p w.
Proof.
  revert fuel' p w. induction fuel as [| fuel IH]; intros fuel' p w Hle Hfin.
  - exfalso. apply Hfin. reflexivity.
  - destruct fuel' as [| fuel']; [lia |].
    cbn [playGame_loop] in *. unfold io_bind in *.
    destruct (oneTurn parse_float fuel tank1box tank2box obstacleBox p g w)
      as [r w1 | e w1 |] eqn:E1.
    + rewrite (oneTurn_mono fuel fuel' p w) by (try lia; rewrite E1; discriminate).
      rewrite E1. destruct (negb (r =? 0)%Z); [reflexivity |].
      destruct (input "hit enter to continue >" w1) as [line w2 | e w2 |];
        [| reflexivity | reflexivity].
      apply IH; [lia | exact Hfin].
    + rewrite (oneTurn_mono fuel fuel' p w) by (try lia; rewrite E1; discriminate).
      rewrite E1. reflexivity.
    + exfalso. apply Hfin. reflexivity.
Qed.

(** What a turn returns: the player's number when the shot hits, [0] when
    it misses. *)
Lemma oneTurn_result (fuel : nat) (p r : Z) (w w1 : world) :
  oneTurn parse_float fuel tank1box tank2box obstacleBox p g w = Ret r w1 ->
  exists vel th hit,
    tankShot (if (p =? 1)%Z then tank2box else tank1box) obstacleBox
      (0.5 * (box_left (if (p =? 1)%Z then tank1box else tank2box)
              + box_right (if (p =? 1)%Z then tank1box else tank2box)))
      (0.5 * (box_bottom (if (p =? 1)%Z then tank1box else tank2box)
              + box_top (if (p =? 1)%Z then tank1box else tank2box)))
      vel th g = ret hit
    /\ r = (if hit then p else 0%Z).
Proof.
  unfold oneTurn, io_bind.
  destruct (getNumberInput parse_float fuel _ default_range w)
    as [vel wa | |]; [| discriminate | discriminate].
  destruct (getNumberInput parse_float fuel _ default_range wa)
    as [th wb | |]; [| discriminate | discriminate].
  destruct (tankShot _ obstacleBox _ _ vel th g) as [e | hit] eqn:Eshot;
    cbn [lift]; [discriminate |].
  intros H. exists vel, th, hit. split; [exact Eshot |].
  destruct hit; unfold io_ret in H; injection H as <- _; reflexivity.
Qed.

Lemma next_player_twice (p : Z) :
  (p = 1 \/ p = 2)%Z -> next_player (next_player p) = p.
Proof. intros [-> | ->]; reflexivity. Qed.

Lemma next_player_range (p : Z) :
  (next_player p = 1 \/ next_player p = 2)%Z.
Proof.
  unfold next_player. destruct (p =? 1)%Z; [right | left]; reflexivity.
Qed.

Lemma alternating_nth (n : nat) :
  forall p k q, (p = 1 \/ p = 2)%Z ->
    nth_error (alternating p n) k = Some q ->
    q = if Nat.even k then p else next_player p.
Proof.
  induction n as [| n IH]; intros p k q Hp Hq.
  - destruct k; discriminate Hq.
  - destruct k as [| k]; cbn [alternating nth_error] in Hq.
    + injection Hq as <-. reflexivity.
    + apply (IH (next_player p) k q (next_player_range p)) in Hq.
      rewrite Hq, Nat.even_succ, <- Nat.negb_even, next_player_twice by exact Hp.
      destruct (Nat.even k); reflexivity.
Qed.

(** Through missed turns the players alternate. *)
Lemma misses_players (players : list Z) (p p' : Z) (w w' : world) :
  misses parse_float tank1box tank2box obstacleBox g players p w p' w' ->
  (p = 1 \/ p = 2)%Z ->
  players = alternating p (length players)
  /\ p' = (if Nat.even (length players) then p else next_player p).
Proof.
  intros Hm. induction Hm as [p w | p w fuel w1 line w2 players p' w' _ _ _ IH];
    intros Hp.
  - split; reflexivity.
  - destruct (IH (next_player_range p)) as [Hpl Hp'].
    cbn [length alternating]. split.
    + f_equal. exact Hpl.
    + rewrite Hp', Nat.even_succ, <- Nat.negb_even, next_player_twice by exact Hp.
      destruct (Nat.even (length players)); reflexivity.
Qed.

(** Missed turns are a prefix of the loop: what the loop does from the
    state they lead to is what it does from the start. *)
Lemma misses_loop (players : list Z) (p p' : Z) (w w' : world) :
  misses parse_float tank1box tank2box obstacleBox g players p w p' w' ->
  forall n r,
    playGame_loop parse_float n tank1box tank2box obstacleBox g p' w' = r ->
    finished r ->
    exists m, forall fuel, (m <= fuel)%nat ->
      playGame_loop parse_float fuel tank1box tank2box obstacleBox g p w = r.
Proof.
  intros Hm.
  induction Hm as [p w | p w f w1 line w2 players p' w' Hturn Hack _ IH];
    intros n r Hr Hfin.
  - exists n. intros fuel Hle. rewrite <- Hr.
    apply playGame_loop_mono; [exact Hle | rewrite Hr; exact Hfin].
  - destruct (IH n r Hr Hfin) as [m Hm'].
    exists (S (Nat.max f m)). intros fuel Hle.
    destruct fuel as [| fuel]; [lia |].
    rewrite (playGame_loop_miss fuel p w w1 w2 line).
    + apply Hm'. lia.
    + rewrite (oneTurn_mono f fuel p w) by (try lia; rewrite Hturn; discriminate).
      exact Hturn.
    + exact Hack.
Qed.

End TurnFacts.

(** ** The console and the turn controller: the stated properties *)

Section ControllerClaims.

Variable parse_float : string -> option R.

Lemma accepted_none (validRange : ext * ext) (line : string) :
  parse_float line = None
  \/ (exists num, parse_float line = Some num
                  /\ (ext_leb (fst validRange) (Fin num) = false
                      \/ ext_leb (Fin num) (snd validRange) = false)) ->
  accepted parse_float validRange line = None.
Proof.
  unfold accepted. intros [-> | [num [-> [H | H]]]]; [reflexivity | |];
    rewrite H; [reflexivity | rewrite andb_false_r; reflexivity].
Qed.

(** C9.  For every prompt and range [[lo, hi]]: [getNumberInput] never
    raises; a value it returns is the number some input line parses to
    and satisfies [lo <= value <= hi]; on a line that does not parse or
    whose number is out of the range it prints a message and prompts
    again instead of returning; and it returns the first line that parses
    to a number of the range, bounds included, whatever was rejected
    before. *)
Theorem getNumberInput_contract (prompt : string) (lo hi : ext) :
  (forall fuel w e w',
      getNumberInput parse_float fuel prompt (lo, hi) w <> Raise e w')
  /\ (forall fuel w num w',
        getNumberInput parse_float fuel prompt (lo, hi) w = Ret num w' ->
        exists line, In line (stdin w)
                     /\ parse_float line = Some num
                     /\ ext_leb lo (Fin num) = true
                     /\ ext_leb (Fin num) hi = true)
  /\ (forall fuel line rest out,
        parse_float line = None
        \/ (exists num, parse_float line = Some num
                        /\ (ext_leb lo (Fin num) = false
                            \/ ext_leb (Fin num) hi = false)) ->
        getNumberInput parse_float (S fuel) prompt (lo, hi)
          (mkWorld (line :: rest) out)
        = getNumberInput parse_float fuel prompt (lo, hi)
            (mkWorld rest ((out ++ [Prompt prompt])
                           ++ [rejection parse_float (lo, hi) line])))
  /\ (forall pre line rest out num fuel,
        (forall l, In l pre -> accepted parse_float (lo, hi) l = None) ->
        parse_float line = Some num ->
        ext_leb lo (Fin num) = true -> ext_leb (Fin num) hi = true ->
        (length pre < fuel)%nat ->
        getNumberInput parse_float fuel prompt (lo, hi)
          (mkWorld (pre ++ line :: rest) out)
        = Ret num (mkWorld rest
                     (out ++ reprompts parse_float prompt (lo, hi) pre
                          ++ [Prompt prompt]))).
Proof.
  split; [| split; [| split]].
  - intros fuel w e w'. apply getNumberInput_never_raises.
  - intros fuel w num w' Hret.
    destruct (getNumberInput_returned parse_float prompt (lo, hi) fuel w num w'
                Hret) as [pre [line [Hin [_ [Hacc _]]]]].
    apply accepted_some in Hacc. cbn [fst snd] in Hacc.
    exists line. split; [| exact Hacc].
    rewrite Hin. apply in_or_app. right. left. reflexivity.
  - intros fuel line rest out Hbad.
    rewrite getNumberInput_line.
    rewrite (accepted_none (lo, hi) line Hbad). reflexivity.
  - intros pre line rest out num fuel Hrej Hparse Hlo Hhi Hfuel.
    apply getNumberInput_accepts; try assumption.
    apply accepted_some. cbn [fst snd]. repeat split; assumption.
Qed.

Variables tank1box tank2box obstacleBox : Box R.
Variable g : R.

(** C8.  [playGame] enters its loop with player 1.  Through missed (and
    acknowledged) turns the players alternate 1, 2, 1, 2, ...; after them
    the loop goes on from the state reached, with the player whose turn
    it is; and when that player's shot hits, the loop ends with that
    player as the winner, whom [playGame] congratulates.  A turn returns
    the player's number when the shot hits and [0] when it misses. *)
Theorem playGame_alternates_until_hit (players : list Z) (w : world) (p : Z)
  (w' : world) :
  misses parse_float tank1box tank2box obstacleBox g players 1%Z w p w' ->
  (forall k q, nth_error players k = Some q ->
               q = if Nat.even k then 1%Z else 2%Z)
  /\ p = (if Nat.even (length players) then 1%Z else 2%Z)
  /\ (forall n r,
        playGame_loop parse_float n tank1box tank2box obstacleBox g p w' = r ->
        finished r ->
        exists m, forall fuel, (m <= fuel)%nat ->
          playGame_loop parse_float fuel tank1box tank2box obstacleBox g 1%Z w
          = r)
  /\ (forall n w'',
        oneTurn parse_float n tank1box tank2box obstacleBox p g w' = Ret p w'' ->
        exists m, forall fuel, (m <= fuel)%nat ->
          playGame_loop parse_float fuel tank1box tank2box obstacleBox g 1%Z w
          = Ret p w''
          /\ playGame parse_float fuel tank1box tank2box obstacleBox g w
             = Ret tt (write (Printed ("Congratulations player " ++ str p
                                       ++ " !")) w''))
  /\ (forall n q w0 r w1,
        oneTurn parse_float n tank1box tank2box obstacleBox q g w0 = Ret r w1 ->
        exists vel th hit,
          tankShot (if (q =? 1)%Z then tank2box else tank1box) obstacleBox
            (0.5 * (box_left (if (q =? 1)%Z then tank1box else tank2box)
                    + box_right (if (q =? 1)%Z then tank1box else tank2box)))
            (0.5 * (box_bottom (if (q =? 1)%Z then tank1box else tank2box)
                    + box_top (if (q =? 1)%Z then tank1box else tank2box)))
            vel th g = ret hit
          /\ r = (if hit then q else 0%Z)).
Proof.
  intros Hm.
  destruct (misses_players parse_float tank1box tank2box obstacleBox g
              players 1%Z p w w' Hm (or_introl eq_refl)) as [Hpl Hp].
  assert (p <> 0%Z) as Hp0
    by (rewrite Hp; destruct (Nat.even (length players)); discriminate).
  split; [| split; [| split; [| split]]].
  - intros k q Hq. rewrite Hpl in Hq.
    apply (alternating_nth (length players) 1%Z k q (or_introl eq_refl)) in Hq.
    exact Hq.
  - exact Hp.
  - intros n r Hr Hfin.
    exact (misses_loop parse_float tank1box tank2box obstacleBox g
             players 1%Z p w w' Hm n r Hr Hfin).
  - intros n w'' Hturn.
    pose proof (playGame_loop_hit parse_float tank1box tank2box obstacleBox g
                  n p p w' w'' Hturn Hp0) as Hloop.
    destruct (misses_loop parse_float tank1box tank2box obstacleBox g
                players 1%Z p w w' Hm (S n) (Ret p w'') Hloop
                (finished_ret Z p w'')) as [m Hfuel].
    exists m. intros fuel Hle. split; [apply Hfuel; exact Hle |].
    unfold playGame, io_bind. rewrite (Hfuel fuel Hle). reflexivity.
  - intros n q w0 r w1 Hturn.
    exact (oneTurn_result parse_float tank1box tank2box obstacleBox g
             n q r w0 w1 Hturn).
Qed.

(** An exception raised in a turn leaves [playGame]: nothing catches
    it. *)
Lemma playGame_propagates (fuel : nat) (w : world) (e : exn) (w1 : world) :
  oneTurn parse_float fuel tank1box tank2box obstacleBox 1%Z g w = Raise e w1 ->
  playGame parse_float (S fuel) tank1box tank2box obstacleBox g w = Raise e w1.
Proof.
  intros Hturn. unfold playGame. cbn [playGame_loop]. unfold io_bind.
  rewrite Hturn. reflexivity.
Qed.

End ControllerClaims.

(** ** Parameters that are not validated *)

Section ValidationClaims.

Variables targetBox obstacleBox : Box R.
Variables x0 y0 v theta g : R.

(** A box with [left > right] or [bottom > top] contains no point. *)
Lemma inverted_box_empty (box : Box R) (px py : R) :
  box_right box < box_left box \/ box_top box < box_bottom box ->
  inBox Rleb box px py = false.
Proof.
  intros Hinv. unfold inBox, between.
  destruct (Rleb (box_left box) px) eqn:E1;
    destruct (Rleb px (box_right box)) eqn:E2;
    destruct (Rleb (box_bottom box) py) eqn:E3;
    destruct (Rleb py (box_top box)) eqn:E4; try reflexivity.
  apply Rleb_le in E1, E2, E3, E4. exfalso. destruct Hinv; lra.
Qed.

Lemma inverted_box_no_point (box : Box R) (x y : list R) (k : nat) :
  box_right box < box_left box \/ box_top box < box_bottom box ->
  inBoxAt Rleb box x y k = false.
Proof.
  intros Hinv. unfold inBoxAt.
  destruct (nth_error x k) as [px |]; [| reflexivity].
  destruct (nth_error y k) as [py |]; [| reflexivity].
  apply inverted_box_empty. exact Hinv.
Qed.

Lemma tankShot_zero_gravity :
  tankShot targetBox obstacleBox x0 y0 v theta 0 = raise ZeroDivisionError.
Proof.
  unfold tankShot. rewrite trajectory_zero_gravity. reflexivity.
Qed.

(** C2, as the code has it.  There is no validation of gravity or of the
    boxes and no domain error.  Whenever [g] is not zero, negative values
    included, [tankShot] returns a boolean, also for boxes with
    [left > right] or [bottom > top]; a target box of that kind contains
    no point, so the shot is a miss.  Only [g = 0] raises: [trajectory]
    raises [ZeroDivisionError], [tankShot] passes it on, and so do
    [oneTurn], once the two numbers of the turn are read, and
    [playGame]. *)
Theorem no_parameter_validation :
  (g <> 0 ->
   exists b, tankShot targetBox obstacleBox x0 y0 v theta g = ret b)
  /\ (g <> 0 ->
      box_right targetBox < box_left targetBox
      \/ box_top targetBox < box_bottom targetBox ->
      tankShot targetBox obstacleBox x0 y0 v theta g = ret false)
  /\ (g = 0 ->
      trajectory x0 y0 v theta g 10000 = raise ZeroDivisionError
      /\ tankShot targetBox obstacleBox x0 y0 v theta g
         = raise ZeroDivisionError)
  /\ (forall parse_float fuel tank1box tank2box p w vel wa th wb,
        g = 0 ->
        getNumberInput parse_float fuel
          ("Player " ++ str p ++ " enter velocity >") default_range w
        = Ret vel wa ->
        getNumberInput parse_float fuel
          ("Player " ++ str p ++ " enter angle (deg) >") default_range wa
        = Ret th wb ->
        oneTurn parse_float fuel tank1box tank2box obstacleBox p g w
        = Raise ZeroDivisionError wb)
  /\ (forall parse_float fuel tank1box tank2box w e w1,
        oneTurn parse_float fuel tank1box tank2box obstacleBox 1%Z g w
        = Raise e w1 ->
        playGame parse_float (S fuel) tank1box tank2box obstacleBox g w
        = Raise e w1).
Proof.
  split; [| split; [| split; [| split]]].
  - intros Hg. apply tankShot_returns. exact Hg.
  - intros Hg Hinv.
    apply tankShot_no_target_point
      with (1 := trajectory_ret x0 y0 v theta g 10000 Hg).
    intros k. apply inverted_box_no_point. exact Hinv.
  - intros ->. split;
      [apply trajectory_zero_gravity | apply tankShot_zero_gravity].
  - intros parse_float fuel tank1box tank2box p w vel wa th wb -> Hv Hth.
    unfold oneTurn, io_bind. rewrite Hv, Hth.
    unfold tankShot. rewrite trajectory_zero_gravity. reflexivity.
  - intros parse_float fuel tank1box tank2box w e w1 Hturn.
    apply playGame_propagates. exact Hturn.
Qed.

End ValidationClaims.

(** ** Worked examples *)

(** Membership of a point in one of the boxes above comes down to
    comparisons of numbers. *)
Ltac box_bounds :=
  unfold inBox, between, tank1box_main, tank2box_main, obstacleBox_main,
    obstacleBox_high, ceiling_box, ground_box;
  cbn [box_left box_right box_bottom box_top].

(** The scan on integers: the second point is the first in the box. *)
Example firstInBox_second_point :
  firstInBox Z.leb [1; 5; 7]%Z [9; 5; 7]%Z (mkBox 4 8 4 8)%Z = ret 1%Z.
Proof. reflexivity. Qed.

Example firstInBox_bounds_included :
  firstInBox Z.leb [3; 4]%Z [8; 8]%Z (mkBox 4 8 4 8)%Z = ret 1%Z.
Proof. reflexivity. Qed.

Example firstInBox_not_found :
  firstInBox Z.leb [1; 2]%Z [1; 2]%Z (mkBox 4 8 4 8)%Z = ret (-1)%Z.
Proof. reflexivity. Qed.

(** A [y] array shorter than [x] raises when the scan reaches a missing
    entry. *)
Example firstInBox_short_y :
  firstInBox Z.leb [1; 5]%Z [9]%Z (mkBox 4 8 4 8)%Z = raise IndexError.
Proof. reflexivity. Qed.

Example endTrajectory_cut :
  endTrajectoryAtIntersection Z.leb [1; 2; 5; 7]%Z [9; 9; 5; 7]%Z
    (mkBox 4 8 4 8)%Z
  = ret ([1; 2]%Z, [9; 9]%Z).
Proof. reflexivity. Qed.

Lemma firstInBox_lowest_index_witness :
  length [1; 5; 7]%Z = length [9; 5; 7]%Z
  /\ ((exists j, (j < length [1; 5; 7]%Z)%nat
                 /\ firstInBox Z.leb [1; 5; 7]%Z [9; 5; 7]%Z (mkBox 4 8 4 8)%Z
                    = ret (Z.of_nat j)
                 /\ inBoxAt Z.leb (mkBox 4 8 4 8)%Z [1; 5; 7]%Z [9; 5; 7]%Z j
                    = true
                 /\ forall k, (k < j)%nat ->
                      inBoxAt Z.leb (mkBox 4 8 4 8)%Z [1; 5; 7]%Z [9; 5; 7]%Z k
                      = false)
      \/ (firstInBox Z.leb [1; 5; 7]%Z [9; 5; 7]%Z (mkBox 4 8 4 8)%Z
          = ret (-1)%Z
          /\ forall k,
               inBoxAt Z.leb (mkBox 4 8 4 8)%Z [1; 5; 7]%Z [9; 5; 7]%Z k
               = false)).
Proof.
  split; [reflexivity |].
  apply (firstInBox_lowest_index Z Z.leb). reflexivity.
Defined.

Lemma endTrajectory_identity_witness :
  length [1; 2]%Z = length [1; 2]%Z
  /\ (forall k, inBoxAt Z.leb (mkBox 4 8 4 8)%Z [1; 2]%Z [1; 2]%Z k = false)
  /\ endTrajectoryAtIntersection Z.leb [1; 2]%Z [1; 2]%Z (mkBox 4 8 4 8)%Z
     = ret ([1; 2]%Z, [1; 2]%Z).
Proof.
  assert (forall k, inBoxAt Z.leb (mkBox 4 8 4 8)%Z [1; 2]%Z [1; 2]%Z k = false)
    as Hnone by (intros [| [| [| k]]]; reflexivity).
  split; [reflexivity |]. split; [exact Hnone |].
  apply (endTrajectory_identity Z Z.leb); [reflexivity | exact Hnone].
Defined.

Lemma endTrajectory_prefix_witness :
  length [1; 2; 5; 7]%Z = length [9; 9; 5; 7]%Z
  /\ inBoxAt Z.leb (mkBox 4 8 4 8)%Z [1; 2; 5; 7]%Z [9; 9; 5; 7]%Z 2 = true
  /\ (forall k, (k < 2)%nat ->
        inBoxAt Z.leb (mkBox 4 8 4 8)%Z [1; 2; 5; 7]%Z [9; 9; 5; 7]%Z k = false)
  /\ endTrajectoryAtIntersection Z.leb [1; 2; 5; 7]%Z [9; 9; 5; 7]%Z
       (mkBox 4 8 4 8)%Z
     = ret (firstn 2 [1; 2; 5; 7]%Z, firstn 2 [9; 9; 5; 7]%Z).
Proof.
  assert (forall k, (k < 2)%nat ->
            inBoxAt Z.leb (mkBox 4 8 4 8)%Z [1; 2; 5; 7]%Z [9; 9; 5; 7]%Z k
            = false) as Hbefore
    by (intros [| [| k]] Hk; [reflexivity | reflexivity | lia]).
  split; [reflexivity |]. split; [reflexivity |]. split; [exact Hbefore |].
  apply (endTrajectory_prefix Z Z.leb _ _ _ 2%nat);
    [reflexivity | reflexivity | exact Hbefore].
Defined.



(** Negative gravity and a target box with [left > right] are accepted:
    a trajectory is computed and the shot returns. *)
Lemma invalid_parameters_accepted :
  -1 <= 0
  /\ (exists x y,
        trajectory 0 2 4 90 (-1) 1000 = ret (x, y)
        /\ length x = N.to_nat 1000 /\ length y = N.to_nat 1000)
  /\ box_right (mkBox 5 1 0 5) < box_left (mkBox 5 1 0 5)
  /\ tankShot (mkBox 5 1 0 5) obstacleBox_main 12.5 2.5 40 45 9.8 = ret false.
Proof.
  split; [lra |]. split; [| split].
  - assert (-1 <> 0) as Hg by lra.
    pose proof (trajectory_ret 0 2 4 90 (-1) 1000 Hg) as Htraj.
    destruct (trajectory_lengths _ _ _ _ _ _ _ _ Htraj) as [Lx Ly].
    eexists. eexists. split; [exact Htraj |]. split; [exact Lx | exact Ly].
  - cbn [box_left box_right]. lra.
  - assert (9.8 <> 0) as Hg by lra.
    apply tankShot_no_target_point
      with (1 := trajectory_ret 12.5 2.5 40 45 9.8 10000 Hg).
    intros k. apply inverted_box_no_point. left. cbn [box_left box_right]. lra.
Defined.




(** *** Reading a number after two rejected lines *)

Lemma parse_digits_word : parse_digits "abc" = None.
Proof. reflexivity. Qed.

Lemma parse_digits_200 : parse_digits "200" = Some 200.
Proof. reflexivity. Qed.

Lemma parse_digits_45 : parse_digits "45" = Some 45.
Proof. reflexivity. Qed.

Lemma getNumberInput_contract_witness :
  getNumberInput parse_digits 3 "velocity >" (Fin 0, Fin 100) fumbled_input
  = Ret 45 fumbled_end.
Proof.
  destruct (getNumberInput_contract parse_digits "velocity >" (Fin 0) (Fin 100))
    as [_ [_ [_ Hfirst]]].
  assert (forall l, In l ["abc"; "200"]%string ->
            accepted parse_digits (Fin 0, Fin 100) l = None) as Hrej.
  { intros l [<- | [<- | []]]; apply accepted_none.
    - left. exact parse_digits_word.
    - right. exists 200. split; [exact parse_digits_200 |].
      right. cbn [snd ext_leb]. apply Rleb_false. lra. }
  assert (ext_leb (Fin 0) (Fin 45) = true) as Hlo
    by (cbn [ext_leb]; apply Rleb_true; lra).
  assert (ext_leb (Fin 45) (Fin 100) = true) as Hhi
    by (cbn [ext_leb]; apply Rleb_true; lra).
  exact (Hfirst ["abc"; "200"]%string "45"%string ["7"]%string [] 45 3%nat
           Hrej parse_digits_45 Hlo Hhi (le_n 3)).
Defined.

(** *** A game of two turns *)

Lemma half_turn : deg2rad 180 = PI.
Proof. unfold deg2rad. field. Qed.

Lemma level_flight_time :
  tfinal (80 * sin (deg2rad 180)) (0.5 * (0 + 5)) 5 = 1.
Proof.
  rewrite half_turn, sin_PI, Rmult_0_r, tfinal_drop.
  replace (2 * (0.5 * (0 + 5)) / 5) with 1 by lra.
  apply sqrt_1.
Qed.

Lemma player1_drop_misses :
  tankShot tank2box_main obstacleBox_high
    (0.5 * (box_left tank1box_main + box_right tank1box_main))
    (0.5 * (box_bottom tank1box_main + box_top tank1box_main)) 0 0 5
  = ret false.
Proof.
  unfold tank1box_main. cbn [box_left box_right box_bottom box_top].
  apply drop_misses; [lra | lra |].
  intros py _. box_bounds. rewrite (Rleb_false 90) by lra. reflexivity.
Qed.

Lemma player2_level_shot_hits :
  tankShot tank1box_main obstacleBox_high
    (0.5 * (box_left tank2box_main + box_right tank2box_main))
    (0.5 * (box_bottom tank2box_main + box_top tank2box_main)) 80 180 5
  = ret true.
Proof.
  unfold tank2box_main. cbn [box_left box_right box_bottom box_top].
  assert (5 <> 0) as Hg by lra.
  pose proof (trajectory_ret (0.5 * (90 + 95)) (0.5 * (0 + 5)) 80 180 5 10000 Hg)
    as Htraj.
  apply tankShot_target_first
    with (1 := Htraj) (j := (N.to_nat 10000 - 1)%nat).
  - (* the last sample is (12.5, 0), inside tank 1 *)
    destruct (trajectory_last _ _ _ _ _ 10000 _ _ ltac:(lia) Htraj)
      as [Hx Hy].
    unfold inBoxAt. rewrite Hx, Hy.
    rewrite level_flight_time, half_turn, cos_PI, sin_PI.
    box_bounds.
    rewrite !Rleb_true by lra. reflexivity.
  - (* no sample is higher than the origin, so none is in the obstacle *)
    intros k Hk.
    destruct (trajectory_nth _ _ _ _ _ 10000 _ _ k ltac:(lia) Htraj
                ltac:(lia)) as [tk [_ [Hx Hy]]].
    unfold inBoxAt. rewrite Hx, Hy.
    rewrite half_turn, sin_PI.
    box_bounds.
    rewrite (Rleb_false 10) by nra.
    rewrite andb_false_r. reflexivity.
Qed.

Lemma first_turn_misses :
  oneTurn parse_digits 1 tank1box_main tank2box_main obstacleBox_high 1%Z 5
    game_input
  = Ret 0%Z (mkWorld [""; "80"; "180"]%string
               [Prompt "Player 1 enter velocity >";
                Prompt "Player 1 enter angle (deg) >"]).
Proof.
  unfold oneTurn, io_bind, game_input.
  rewrite getNumberInput_line.
  change (accepted parse_digits default_range "0") with (Some 0).
  cbv iota. rewrite getNumberInput_line.
  change (accepted parse_digits default_range "0") with (Some 0).
  cbv iota. cbn [Z.eqb Pos.eqb].
  rewrite player1_drop_misses. reflexivity.
Qed.

Lemma second_turn_hits :
  oneTurn parse_digits 1 tank1box_main tank2box_main obstacleBox_high 2%Z 5
    game_after_miss
  = Ret 2%Z (mkWorld []
               [Prompt "Player 1 enter velocity >";
                Prompt "Player 1 enter angle (deg) >";
                Prompt "hit enter to continue >";
                Prompt "Player 2 enter velocity >";
                Prompt "Player 2 enter angle (deg) >"]).
Proof.
  unfold oneTurn, io_bind, game_after_miss.
  rewrite getNumberInput_line.
  change (accepted parse_digits default_range "80") with (Some 80).
  cbv iota. rewrite getNumberInput_line.
  change (accepted parse_digits default_range "180") with (Some 180).
  cbv iota. cbn [Z.eqb Pos.eqb].
  rewrite player2_level_shot_hits. reflexivity.
Qed.

Lemma playGame_alternates_until_hit_witness :
  misses parse_digits tank1box_main tank2box_main obstacleBox_high 5
    [1%Z] 1%Z game_input 2%Z game_after_miss
  /\ exists m, forall fuel, (m <= fuel)%nat ->
       playGame parse_digits fuel tank1box_main tank2box_main
         obstacleBox_high 5 game_input
       = Ret tt game_end.
Proof.
  assert (misses parse_digits tank1box_main tank2box_main obstacleBox_high 5
            [1%Z] 1%Z game_input 2%Z game_after_miss) as Hmiss.
  { eapply misses_cons.
    - exact first_turn_misses.
    - reflexivity.
    - apply misses_nil. }
  split; [exact Hmiss |].
  destruct (playGame_alternates_until_hit parse_digits tank1box_main
              tank2box_main obstacleBox_high 5 [1%Z] game_input 2%Z
              game_after_miss Hmiss) as [_ [_ [_ [Hwin _]]]].
  destruct (Hwin 1%nat _ second_turn_hits) as [m Hm].
  exists m. intros fuel Hle. destruct (Hm fuel Hle) as [_ Hgame].
  exact Hgame.
Defined.

(** *** A drop that starts in one box and ends in another *)




(** * Further properties of the code *)

(** ** The scan on arrays of different lengths *)

Section ScanLengths.

Variable T : Type.
Variable leb : T -> T -> bool.

(** Entries of [y] beyond the indices visited are never read. *)
Lemma firstInBox_loop_firstn (range : list nat) (x y : list T) (box : Box T)
  (n : nat) :
  (forall i, In i range -> (i < n)%nat) ->
  firstInBox_loop leb range x (firstn n y) box
  = firstInBox_loop leb range x y box.
Proof.
  induction range as [| i rest IH]; intros Hrange; [reflexivity |].
  cbn [firstInBox_loop]. unfold index at 2 4.
  rewrite nth_error_firstn.
  destruct (Nat.ltb_spec i n) as [_ | Hge];
    [| specialize (Hrange i (or_introl eq_refl)); lia].
  rewrite IH by (intros j Hj; apply Hrange; right; exact Hj).
  reflexivity.
Qed.

(** X1.  When [y] is at least as long as [x], [firstInBox] does not
    raise: it returns [-1] or an index of [x], and the entries of [y]
    beyond the length of [x] play no part. *)
Theorem firstInBox_long_y (x y : list T) (box : Box T) :
  (length x <= length y)%nat ->
  firstInBox leb x y box = firstInBox leb x (firstn (length x) y) box
  /\ exists i, firstInBox leb x y box = ret i
               /\ (-1 <= i < Z.of_nat (length x))%Z.
Proof.
  intros Hlen. split.
  - unfold firstInBox. symmetry. apply firstInBox_loop_firstn.
    intros i Hi. apply in_seq in Hi. lia.
  - unfold firstInBox.
    destruct (firstInBox_loop_seq T leb (length x) 0 x y box)
      as [[j [Hj [Hr _]]] | [Hr _]]; try lia.
    + exists (Z.of_nat j). split; [exact Hr | lia].
    + exists (-1)%Z. split; [exact Hr | lia].
Qed.

(** The loop can only fail with [IndexError], at an index missing from
    one of the arrays. *)
Lemma firstInBox_loop_raise (range : list nat) (x y : list T) (box : Box T)
  (e : exn) :
  firstInBox_loop leb range x y box = raise e ->
  e = IndexError
  /\ exists i, In i range
               /\ ((length x <= i)%nat
                   \/ ((length y <= i)%nat
                       /\ exists xi, nth_error x i = Some xi
                                     /\ between leb (box_left box) xi
                                          (box_right box) = true)).
Proof.
  induction range as [| i rest IH]; intros Hraise; [discriminate Hraise |].
  cbn [firstInBox_loop] in Hraise. unfold index in Hraise.
  destruct (nth_error x i) as [xi |] eqn:Ex; cbn [bind ret raise] in Hraise.
  - destruct (between leb (box_left box) xi (box_right box)) eqn:Bx.
    + destruct (nth_error y i) as [yi |] eqn:Ey; cbn [bind ret raise] in Hraise.
      * destruct (between leb (box_bottom box) yi (box_top box));
          [discriminate Hraise |].
        destruct (IH Hraise) as [He [j [Hj Hwhy]]].
        split; [exact He |]. exists j. split; [right; exact Hj | exact Hwhy].
      * injection Hraise as <-. split; [reflexivity |].
        exists i. split; [left; reflexivity |]. right.
        split; [apply nth_error_None; exact Ey |].
        exists xi. split; [exact Ex | exact Bx].
    + destruct (IH Hraise) as [He [j [Hj Hwhy]]].
      split; [exact He |]. exists j. split; [right; exact Hj | exact Hwhy].
  - injection Hraise as <-. split; [reflexivity |].
    exists i. split; [left; reflexivity |]. left.
    apply nth_error_None. exact Ex.
Qed.

(** X2.  [firstInBox] can only raise [IndexError], and only when [y] is
    shorter than [x]: some [x[i]] with [left <= x[i] <= right] has no
    [y[i]] beside it. *)
Theorem firstInBox_raise_only_short_y (x y : list T) (box : Box T) (e : exn) :
  firstInBox leb x y box = raise e ->
  e = IndexError
  /\ exists i xi, (length y <= i < length x)%nat
                  /\ nth_error x i = Some xi
                  /\ leb (box_left box) xi = true
                  /\ leb xi (box_right box) = true.
Proof.
  intros Hraise. unfold firstInBox in Hraise.
  destruct (firstInBox_loop_raise _ x y box e Hraise)
    as [He [i [Hi [Hx | [Hy [xi [Ex Bx]]]]]]].
  - apply in_seq in Hi. lia.
  - split; [exact He |]. exists i, xi.
    apply in_seq in Hi. unfold between in Bx. apply andb_prop in Bx.
    destruct Bx as [B1 B2].
    split; [lia |]. split; [exact Ex |]. split; assumption.
Qed.

End ScanLengths.

(** ** Truncation, once and twice *)

Section TruncationFacts.

Variable T : Type.
Variable leb : T -> T -> bool.

(** X3.  What [endTrajectoryAtIntersection] returns on a point sequence
    is a prefix of it that has no point in the box. *)
Theorem endTrajectory_clear_prefix (x y : list T) (box : Box T) :
  length x = length y ->
  exists n x' y',
    endTrajectoryAtIntersection leb x y box = ret (x', y')
    /\ x' = firstn n x /\ y' = firstn n y
    /\ length x' = length y' /\ (length x' <= length x)%nat
    /\ forall k, inBoxAt leb box x' y' k = false.
Proof.
  intros Hlen.
  destruct (endTrajectory_cases T leb x y box Hlen)
    as [n [Hn [Hend [Hclear _]]]].
  exists n, (firstn n x), (firstn n y).
  split; [exact Hend |]. split; [reflexivity |]. split; [reflexivity |].
  split; [rewrite !length_firstn; lia |].
  split; [rewrite length_firstn; lia |].
  intros k. rewrite inBoxAt_firstn.
  destruct (Nat.ltb_spec k n) as [Hk | _]; [apply Hclear; exact Hk | reflexivity].
Qed.

(** X4.  Truncating again at the same box changes nothing. *)
Theorem endTrajectory_idempotent (x y x' y' : list T) (box : Box T) :
  length x = length y ->
  endTrajectoryAtIntersection leb x y box = ret (x', y') ->
  endTrajectoryAtIntersection leb x' y' box = ret (x', y').
Proof.
  intros Hlen Hend.
  destruct (endTrajectory_clear_prefix x y box Hlen)
    as [n [x1 [y1 [Hend1 [_ [_ [Hlen1 [_ Hclear]]]]]]]].
  rewrite Hend in Hend1. injection Hend1 as <- <-.
  apply endTrajectory_none; assumption.
Qed.

Lemma first_in_either_sym (boxA boxB : Box T) (x y : list T) (m : nat) :
  first_in_either leb boxA boxB x y m -> first_in_either leb boxB boxA x y m.
Proof.
  intros [Hbefore Hat]. split.
  - intros k Hk. destruct (Hbefore k Hk). split; assumption.
  - destruct Hat as [H | [H | H]]; auto.
Qed.

Lemma first_in_either_unique (boxA boxB : Box T) (x y : list T) (m m' : nat) :
  first_in_either leb boxA boxB x y m ->
  first_in_either leb boxA boxB x y m' ->
  m = m'.
Proof.
  assert (forall a b, first_in_either leb boxA boxB x y a ->
                      first_in_either leb boxA boxB x y b ->
                      ~ (a < b)%nat) as Hlt.
  { intros a b [_ Hat] [Hbefore Hat'] Hab.
    destruct (Hbefore a Hab) as [HA HB].
    destruct Hat as [H | [H | H]]; try congruence.
    destruct Hat' as [H' | [H' | H']].
    - apply inBoxAt_lt in H'. lia.
    - apply inBoxAt_lt in H'. lia.
    - lia. }
  intros Hm Hm'.
  pose proof (Hlt m m' Hm Hm'). pose proof (Hlt m' m Hm' Hm). lia.
Qed.

(** Two truncations leave the points before the first index in either
    box. *)
Lemma cut_twice_first (x y : list T) (boxA boxB : Box T) :
  length x = length y ->
  exists m, cut_twice leb x y boxA boxB = ret (firstn m x, firstn m y)
            /\ first_in_either leb boxA boxB x y m.
Proof.
  intros Hlen. unfold cut_twice.
  destruct (endTrajectory_cases T leb x y boxA Hlen)
    as [a [Ha [HendA [HclearA HwhyA]]]].
  rewrite HendA. cbn [bind ret fst snd].
  assert (length (firstn a x) = length (firstn a y)) as Hlen'
    by (rewrite !length_firstn; lia).
  destruct (endTrajectory_cases T leb _ _ boxB Hlen')
    as [m [Hm [HendB [HclearB HwhyB]]]].
  rewrite length_firstn in Hm.
  exists m. split.
  - rewrite HendB, !firstn_firstn.
    replace (Nat.min m a) with m by lia. reflexivity.
  - split.
    + intros k Hk. split; [apply HclearA; lia |].
      specialize (HclearB k Hk). rewrite inBoxAt_firstn in HclearB.
      destruct (Nat.ltb_spec k a); [exact HclearB | lia].
    + destruct HwhyB as [[HB _] | [Hma _]].
      * rewrite inBoxAt_firstn in HB.
        destruct (Nat.ltb_spec m a); [| discriminate HB].
        right. left. exact HB.
      * rewrite length_firstn in Hma.
        destruct HwhyA as [[HA _] | [Hax _]].
        -- left. replace m with a by lia. exact HA.
        -- right. right. lia.
Qed.

(** X5.  Truncating at one box and then at another gives the same
    points in either order: those before the first index in one of the
    two boxes. *)
Theorem cut_twice_commutes (x y : list T) (boxA boxB : Box T) :
  length x = length y ->
  cut_twice leb x y boxA boxB = cut_twice leb x y boxB boxA
  /\ exists m, cut_twice leb x y boxA boxB = ret (firstn m x, firstn m y)
               /\ first_in_either leb boxA boxB x y m.
Proof.
  intros Hlen.
  destruct (cut_twice_first x y boxA boxB Hlen) as [m [Hcut Hm]].
  destruct (cut_twice_first x y boxB boxA Hlen) as [m' [Hcut' Hm']].
  apply first_in_either_sym in Hm'.
  rewrite (first_in_either_unique boxA boxB x y m' m Hm' Hm) in Hcut'.
  split; [rewrite Hcut, Hcut'; reflexivity |].
  exists m. split; assumption.
Qed.

(** X22.  The four corners that [drawBox] hands to [ax.fill] are the
    corners of the box, each on two of its sides; when [<=] is
    reflexive and the box has [left <= right] and [bottom <= top], the
    scan counts every one of them as inside the box, so its first index
    in the box is [0]. *)
Theorem drawBox_corners_in_box (box : Box T) (color : string) :
  (forall a, leb a a = true) ->
  leb (box_left box) (box_right box) = true ->
  leb (box_bottom box) (box_top box) = true ->
  exists cx cy,
    drawBox box color = (cx, cy, color)
    /\ length cx = 4%nat /\ length cy = 4%nat
    /\ (forall k, (k < 4)%nat -> inBoxAt leb box cx cy k = true)
    /\ firstInBox leb cx cy box = ret 0%Z.
Proof.
  intros Hrefl Hlr Hbt.
  eexists. eexists. split; [reflexivity |].
  split; [reflexivity |]. split; [reflexivity |].
  assert (forall k, (k < 4)%nat ->
            inBoxAt leb box
              [box_left box; box_left box; box_right box; box_right box]
              [box_bottom box; box_top box; box_top box; box_bottom box] k
            = true) as Hin.
  { intros k Hk. destruct k as [| [| [| [| k]]]]; try lia;
      unfold inBoxAt, inBox, between; cbn [nth_error];
      rewrite ?Hrefl, ?Hlr, ?Hbt; reflexivity. }
  split; [exact Hin |].
  apply (firstInBox_first T leb _ _ box 0); [reflexivity | | intros k Hk; lia].
  apply Hin. lia.
Qed.

End TruncationFacts.

(** ** The samples of a flight *)

Section FlightFacts.

Variables x0 y0 v theta g : R.







End FlightFacts.

(** ** Hits and misses that the geometry decides *)

Section ShotGeometry.

Variables x0 y0 v theta g : R.

Lemma inBox_true (box : Box R) (px py : R) :
  inBox Rleb box px py = true <->
  box_left box <= px <= box_right box /\ box_bottom box <= py <= box_top box.
Proof.
  unfold inBox, between. rewrite !andb_true_iff, !Rleb_le. tauto.
Qed.

Lemma inBox_within (inner outer : Box R) (px py : R) :
  box_within inner outer ->
  inBox Rleb inner px py = true -> inBox Rleb outer px py = true.
Proof.
  unfold box_within. rewrite !inBox_true. lra.
Qed.

Lemma inBoxAt_within (inner outer : Box R) (x y : list R) (k : nat) :
  box_within inner outer ->
  inBoxAt Rleb inner x y k = true -> inBoxAt Rleb outer x y k = true.
Proof.
  intros Hin. unfold inBoxAt.
  destruct (nth_error x k) as [px |]; [| discriminate].
  destruct (nth_error y k) as [py |]; [| discriminate].
  apply inBox_within. exact Hin.
Qed.

Lemma inBoxAt_outside (inner outer : Box R) (x y : list R) (k : nat) :
  box_within inner outer ->
  inBoxAt Rleb outer x y k = false -> inBoxAt Rleb inner x y k = false.
Proof.
  intros Hin Hout.
  destruct (inBoxAt Rleb inner x y k) eqn:E; [| reflexivity].
  rewrite (inBoxAt_within inner outer x y k Hin E) in Hout. discriminate Hout.
Qed.

(** A hit, read on the trajectory: some sample is in the target box and
    no sample up to it is in the obstacle box. *)
Lemma tankShot_hit_sample (targetBox obstacleBox : Box R) (x y : list R) :
  trajectory x0 y0 v theta g 10000 = ret (x, y) ->
  tankShot targetBox obstacleBox x0 y0 v theta g = ret true ->
  exists j, inBoxAt Rleb targetBox x y j = true
            /\ forall k, (k <= j)%nat -> inBoxAt Rleb obstacleBox x y k = false.
Proof.
  intros Htraj Hhit.
  destruct (tankShot_cut targetBox obstacleBox _ _ _ _ _ x y Htraj)
    as [n [b [_ [Hclear [_ [Hb Hiff]]]]]].
  rewrite Hhit in Hb. injection Hb as <-.
  destruct (proj1 Hiff eq_refl) as [j [Hjn Hj]].
  exists j. split; [exact Hj |]. intros k Hk. apply Hclear. lia.
Qed.

(** X6.  [tankShot] raises nothing but [ZeroDivisionError], and only
    when [g] is zero: the two scans never run out of an array. *)
Theorem tankShot_raises_only_zero_gravity (targetBox obstacleBox : Box R)
  (e : exn) :
  tankShot targetBox obstacleBox x0 y0 v theta g = raise e ->
  e = ZeroDivisionError /\ g = 0.
Proof.
  intros Hraise. destruct (Req_dec_T g 0) as [Hg | Hg].
  - subst g. rewrite tankShot_zero_gravity in Hraise.
    injection Hraise as <-. split; reflexivity.
  - destruct (tankShot_returns targetBox obstacleBox x0 y0 v theta g Hg)
      as [b Hb].
    rewrite Hb in Hraise. discriminate Hraise.
Qed.

(** X7.  A target box that lies within the obstacle box is never hit. *)
Theorem target_within_obstacle_never_hit (targetBox obstacleBox : Box R) :
  g <> 0 ->
  box_within targetBox obstacleBox ->
  tankShot targetBox obstacleBox x0 y0 v theta g = ret false.
Proof.
  intros Hg Hin.
  pose proof (trajectory_ret x0 y0 v theta g 10000 Hg) as Htraj.
  destruct (tankShot_returns targetBox obstacleBox x0 y0 v theta g Hg)
    as [[|] Hb]; [| exact Hb].
  destruct (tankShot_hit_sample targetBox obstacleBox _ _ Htraj Hb)
    as [j [Hj Hclear]].
  apply (inBoxAt_within _ _ _ _ _ Hin) in Hj.
  rewrite (Hclear j (le_n j)) in Hj. discriminate Hj.
Qed.

(** X8.  A hit stays a hit when the target box is enlarged and when the
    obstacle box is shrunk. *)
Theorem tankShot_hit_monotone (targetBox obstacleBox targetBox' obstacleBox'
  : Box R) :
  box_within targetBox targetBox' ->
  box_within obstacleBox' obstacleBox ->
  tankShot targetBox obstacleBox x0 y0 v theta g = ret true ->
  tankShot targetBox' obstacleBox' x0 y0 v theta g = ret true.
Proof.
  intros Htgt Hobs Hhit.
  assert (g <> 0) as Hg.
  { intros ->. rewrite tankShot_zero_gravity in Hhit. discriminate Hhit. }
  pose proof (trajectory_ret x0 y0 v theta g 10000 Hg) as Htraj.
  destruct (tankShot_hit_sample targetBox obstacleBox _ _ Htraj Hhit)
    as [j [Hj Hclear]].
  apply tankShot_target_first with (1 := Htraj) (j := j).
  - apply (inBoxAt_within _ _ _ _ _ Htgt). exact Hj.
  - intros k Hk. apply (inBoxAt_outside _ _ _ _ _ Hobs). apply Hclear. exact Hk.
Qed.

(** X9.  [tankShot] returns [true] exactly when some sample of the
    trajectory lies in the target box and no sample up to it lies in the
    obstacle box.  In particular, when the first sample lies in the
    target box and not in the obstacle box the shot is a hit. *)
Theorem hit_iff_target_sample_first (targetBox obstacleBox : Box R) :
  (tankShot targetBox obstacleBox x0 y0 v theta g = ret true <->
   exists x y j,
     trajectory x0 y0 v theta g 10000 = ret (x, y)
     /\ inBoxAt Rleb targetBox x y j = true
     /\ forall k, (k <= j)%nat -> inBoxAt Rleb obstacleBox x y k = false)
  /\ (forall x y,
        trajectory x0 y0 v theta g 10000 = ret (x, y) ->
        inBoxAt Rleb targetBox x y 0 = true ->
        inBoxAt Rleb obstacleBox x y 0 = false ->
        tankShot targetBox obstacleBox x0 y0 v theta g = ret true).
Proof.
  split; [split |].
  - intros Hhit.
    assert (g <> 0) as Hg.
    { intros ->. rewrite tankShot_zero_gravity in Hhit. discriminate Hhit. }
    pose proof (trajectory_ret x0 y0 v theta g 10000 Hg) as Htraj.
    destruct (tankShot_hit_sample targetBox obstacleBox _ _ Htraj Hhit)
      as [j [Hj Hclear]].
    eexists. eexists. exists j.
    split; [exact Htraj |]. split; [exact Hj | exact Hclear].
  - intros [x [y [j [Htraj [Hj Hclear]]]]].
    exact (tankShot_target_first targetBox obstacleBox _ _ _ _ _ x y j
             Htraj Hj Hclear).
  - intros x y Htraj Htgt Hobs.
    apply tankShot_target_first with (1 := Htraj) (j := 0%nat);
      [exact Htgt |].
    intros k Hk. assert (k = 0)%nat as -> by lia. exact Hobs.
Qed.





End ShotGeometry.

(** ** More on reading a number *)

Section ConsoleMore.

Variable parse_float : string -> option R.
Variable prompt : string.

(** X14.  When no line left on the input is accepted, [getNumberInput]
    neither returns nor raises, however long it runs: at the end of the
    input [EOFError] is caught like a malformed line and the loop goes
    on. *)
Theorem getNumberInput_hangs_without_accepted_line (validRange : ext * ext)
  (fuel : nat) (w : world) :
  (forall l, In l (stdin w) -> accepted parse_float validRange l = None) ->
  getNumberInput parse_float fuel prompt validRange w = OutOfFuel.
Proof.
  destruct w as [inp out]. cbn [stdin]. intros Hrej.
  apply getNumberInput_blocks. exact Hrej.
Qed.

(** X15.  With a range whose upper bound is below its lower bound no
    line is accepted, so [getNumberInput] never returns, whatever is
    typed. *)
Theorem getNumberInput_hangs_on_empty_range (lo hi : R) (fuel : nat)
  (w : world) :
  hi < lo ->
  getNumberInput parse_float fuel prompt (Fin lo, Fin hi) w = OutOfFuel.
Proof.
  intros Hrange. destruct w as [inp out].
  apply getNumberInput_blocks. intros l _.
  unfold accepted. destruct (parse_float l) as [num |]; [| reflexivity].
  cbn [fst snd ext_leb].
  destruct (Rleb lo num) eqn:E1; [| reflexivity].
  destruct (Rleb num hi) eqn:E2; [| reflexivity].
  apply Rleb_le in E1, E2. lra.
Qed.



(** X17.  A number that [getNumberInput] returns is the first accepted
    line of the input: the lines before it were all rejected, each with
    a prompt and a message, the line itself was prompted for, and the
    input left is what follows it. *)
Theorem getNumberInput_returns_first_accepted (validRange : ext * ext)
  (fuel : nat) (w : world) (num : R) (w' : world) :
  getNumberInput parse_float fuel prompt validRange w = Ret num w' ->
  exists pre line,
    stdin w = pre ++ line :: stdin w'
    /\ (forall l, In l pre -> accepted parse_float validRange l = None)
    /\ accepted parse_float validRange line = Some num
    /\ stdout w' = stdout w ++ reprompts parse_float prompt validRange pre
                            ++ [Prompt prompt].
Proof.
  intros Hret.
  exact (getNumberInput_returned parse_float prompt validRange fuel w num w'
           Hret).
Qed.

End ConsoleMore.

(** ** How a game ends *)

Section GameEnds.

Variable parse_float : string -> option R.
Variables tank1box tank2box obstacleBox : Box R.
Variable g : R.

Lemma tankShot_raise_inv (targetBox : Box R) (x0 y0 v theta : R) (e : exn) :
  tankShot targetBox obstacleBox x0 y0 v theta g = raise e ->
  e = ZeroDivisionError /\ g = 0.
Proof.
  intros Hraise. destruct (Req_dec_T g 0) as [Hg | Hg].
  - split; [| exact Hg]. rewrite Hg in Hraise.
    rewrite tankShot_zero_gravity in Hraise. injection Hraise as <-.
    reflexivity.
  - destruct (tankShot_returns targetBox obstacleBox x0 y0 v theta g Hg)
      as [b Hb].
    rewrite Hb in Hraise. discriminate Hraise.
Qed.

(** A turn raises only what the shot raises. *)
Lemma oneTurn_raise_inv (fuel : nat) (p : Z) (w : world) (e : exn)
  (w' : world) :
  oneTurn parse_float fuel tank1box tank2box obstacleBox p g w = Raise e w' ->
  e = ZeroDivisionError /\ g = 0.
Proof.
  unfold oneTurn, io_bind.
  destruct (getNumberInput parse_float fuel _ default_range w)
    as [vel wa | e1 wa |] eqn:E1; [| | discriminate].
  - destruct (getNumberInput parse_float fuel _ default_range wa)
      as [th wb | e2 wb |] eqn:E2; [| | discriminate].
    + destruct (tankShot _ obstacleBox _ _ vel th g) as [e3 | hit] eqn:Eshot;
        cbn [lift].
      * intros H. injection H as <- _.
        exact (tankShot_raise_inv _ _ _ _ _ _ Eshot).
      * destruct hit; discriminate.
    + exfalso. exact (getNumberInput_never_raises _ _ _ _ _ _ _ E2).
  - exfalso. exact (getNumberInput_never_raises _ _ _ _ _ _ _ E1).
Qed.

Lemma input_raise_inv (text : string) (w : world) (e : exn) (w' : world) :
  input text w = Raise e w' ->
  e = EOFError /\ stdin w = [] /\ w' = write (Prompt text) w.
Proof.
  unfold input. destruct (stdin w) as [| line rest] eqn:E; [| discriminate].
  intros H. injection H as <- <-. repeat split; reflexivity.
Qed.

Lemma playGame_loop_raise_inv (fuel : nat) (p : Z) (w : world) (e : exn)
  (w' : world) :
  playGame_loop parse_float fuel tank1box tank2box obstacleBox g p w
  = Raise e w' ->
  (e = EOFError /\ stdin w' = []) \/ (e = ZeroDivisionError /\ g = 0).
Proof.
  revert p w. induction fuel as [| fuel IH]; intros p w Hraise.
  - discriminate Hraise.
  - cbn [playGame_loop] in Hraise. unfold io_bind in Hraise.
    destruct (oneTurn parse_float fuel tank1box tank2box obstacleBox p g w)
      as [r w1 | e1 w1 |] eqn:Eturn; [| | discriminate Hraise].
    + destruct (negb (r =? 0)%Z); [discriminate Hraise |].
      destruct (input "hit enter to continue >" w1) as [line w2 | e2 w2 |]
        eqn:Eack; [| | discriminate Hraise].
      * exact (IH _ _ Hraise).
      * injection Hraise as <- <-.
        destruct (input_raise_inv _ _ _ _ Eack) as [-> [Hin ->]].
        left. split; [reflexivity | exact Hin].
    + injection Hraise as <- _. right.
      exact (oneTurn_raise_inv _ _ _ _ _ Eturn).
Qed.

Lemma playGame_loop_ret_inv (fuel : nat) (p : Z) (w : world) (r : Z)
  (w'' : world) :
  playGame_loop parse_float fuel tank1box tank2box obstacleBox g p w
  = Ret r w'' ->
  exists players p' wa n,
    misses parse_float tank1box tank2box obstacleBox g players p w p' wa
    /\ oneTurn parse_float n tank1box tank2box obstacleBox p' g wa = Ret r w''
    /\ r = p' /\ r <> 0%Z.
Proof.
  revert p w. induction fuel as [| fuel IH]; intros p w Hret.
  - discriminate Hret.
  - cbn [playGame_loop] in Hret. unfold io_bind in Hret.
    destruct (oneTurn parse_float fuel tank1box tank2box obstacleBox p g w)
      as [r1 w1 | e1 w1 |] eqn:Eturn; [| discriminate Hret | discriminate Hret].
    destruct (Z.eqb_spec r1 0) as [-> | Hnz]; cbn [negb] in Hret.
    + destruct (input "hit enter to continue >" w1) as [line w2 | e2 w2 |]
        eqn:Eack; [| discriminate Hret | discriminate Hret].
      destruct (IH _ _ Hret) as [players [p' [wa [n [Hm [Hhit [Hr Hr0]]]]]]].
      exists (p :: players), p', wa, n.
      split; [| split; [exact Hhit | split; assumption]].
      exact (misses_cons parse_float tank1box tank2box obstacleBox g
               p w fuel w1 line w2 players p' wa Eturn Eack Hm).
    + unfold io_ret in Hret. injection Hret as <- <-.
      exists [], p, w, fuel.
      split; [apply misses_nil |]. split; [exact Eturn |].
      split; [| exact Hnz].
      destruct (oneTurn_result parse_float tank1box tank2box obstacleBox g
                  fuel p r1 w w1 Eturn) as [vel [th [hit [_ Hr]]]].
      destruct hit; [exact Hr | contradiction].
Qed.

(** X18.  When a shot has missed and the input is at its end, the
    prompt "hit enter to continue >" raises [EOFError], and [playGame]
    lets it through to its caller. *)
Theorem playGame_eof_at_acknowledgement (fuel : nat) (w w1 : world) :
  oneTurn parse_float fuel tank1box tank2box obstacleBox 1%Z g w
  = Ret 0%Z w1 ->
  stdin w1 = [] ->
  playGame parse_float (S fuel) tank1box tank2box obstacleBox g w
  = Raise EOFError (write (Prompt "hit enter to continue >") w1).
Proof.
  intros Hturn Heof. unfold playGame. cbn [playGame_loop]. unfold io_bind.
  rewrite Hturn. cbn [Z.eqb negb]. unfold input. rewrite Heof. reflexivity.
Qed.

(** X19.  [playGame] raises only [EOFError], with the input used up, or
    [ZeroDivisionError], with gravity zero. *)
Theorem playGame_raises_only (fuel : nat) (w : world) (e : exn) (w' : world) :
  playGame parse_float fuel tank1box tank2box obstacleBox g w = Raise e w' ->
  (e = EOFError /\ stdin w' = []) \/ (e = ZeroDivisionError /\ g = 0).
Proof.
  unfold playGame, io_bind.
  destruct (playGame_loop parse_float fuel tank1box tank2box obstacleBox g
              1%Z w) as [r w1 | e1 w1 |] eqn:Eloop;
    [discriminate | | discriminate].
  intros H. injection H as <- <-.
  exact (playGame_loop_raise_inv _ _ _ _ _ Eloop).
Qed.

(** X20.  When [playGame] returns, the game was a sequence of missed
    turns, the players alternating from player 1, followed by a turn
    that its player, 1 or 2, won; the last thing printed congratulates
    that player. *)
Theorem playGame_returns_after_hit (fuel : nat) (w w' : world) :
  playGame parse_float fuel tank1box tank2box obstacleBox g w = Ret tt w' ->
  exists players p wa n wb,
    misses parse_float tank1box tank2box obstacleBox g players 1%Z w p wa
    /\ players = alternating 1%Z (length players)
    /\ (p = 1 \/ p = 2)%Z
    /\ oneTurn parse_float n tank1box tank2box obstacleBox p g wa = Ret p wb
    /\ w' = write (Printed ("Congratulations player " ++ str p ++ " !")) wb.
Proof.
  unfold playGame, io_bind.
  destruct (playGame_loop parse_float fuel tank1box tank2box obstacleBox g
              1%Z w) as [r wb | e1 w1 |] eqn:Eloop;
    [| discriminate | discriminate].
  intros H. unfold print in H. injection H as <-.
  destruct (playGame_loop_ret_inv _ _ _ _ _ Eloop)
    as [players [p [wa [n [Hm [Hhit [-> _]]]]]]].
  destruct (misses_players parse_float tank1box tank2box obstacleBox g
              players 1%Z p w wa Hm (or_introl eq_refl)) as [Hpl Hp].
  exists players, p, wa, n, wb.
  split; [exact Hm |]. split; [exact Hpl |]. split.
  - rewrite Hp. destruct (Nat.even (length players)); [left | right];
      reflexivity.
  - split; [exact Hhit | reflexivity].
Qed.

End GameEnds.

(** X21.  [main] plays on its three boxes with gravity 9.8, so the only
    exception that can leave it is [EOFError], raised when the input
    ends at the prompt that follows a miss. *)
Theorem main_raises_only_eof (parse_float : string -> option R) (fuel : nat)
  (w : world) (e : exn) (w' : world) :
  main parse_float fuel w = Raise e w' ->
  e = EOFError /\ stdin w' = [].
Proof.
  unfold main, playGame, io_bind.
  destruct (playGame_loop parse_float fuel tank1box_main tank2box_main
              obstacleBox_main 9.8 1%Z w) as [r w1 | e1 w1 |] eqn:Eloop;
    [discriminate | | discriminate].
  intros H. injection H as <- <-.
  destruct (playGame_loop_raise_inv _ _ _ _ _ _ _ _ _ _ Eloop)
    as [Heof | [_ Hg]]; [exact Heof | lra].
Qed.

(** ** Worked examples for the further properties *)

Lemma firstInBox_long_y_witness :
  (length [1; 5]%Z <= length [9; 5; 7]%Z)%nat
  /\ firstInBox Z.leb [1; 5]%Z [9; 5; 7]%Z (mkBox 4 8 4 8)%Z
     = firstInBox Z.leb [1; 5]%Z (firstn (length [1; 5]%Z) [9; 5; 7]%Z)
         (mkBox 4 8 4 8)%Z
  /\ exists i, firstInBox Z.leb [1; 5]%Z [9; 5; 7]%Z (mkBox 4 8 4 8)%Z = ret i
               /\ (-1 <= i < Z.of_nat (length [1; 5]%Z))%Z.
Proof.
  assert (length [1; 5]%Z <= length [9; 5; 7]%Z)%nat as Hlen by (simpl; lia).
  split; [exact Hlen |].
  exact (firstInBox_long_y Z Z.leb [1; 5]%Z [9; 5; 7]%Z (mkBox 4 8 4 8)%Z Hlen).
Defined.

Lemma firstInBox_raise_only_short_y_witness :
  firstInBox Z.leb [1; 5]%Z [9]%Z (mkBox 4 8 4 8)%Z = raise IndexError
  /\ IndexError = IndexError
  /\ exists i xi, (length [9]%Z <= i < length [1; 5]%Z)%nat
                  /\ nth_error [1; 5]%Z i = Some xi
                  /\ Z.leb 4 xi = true /\ Z.leb xi 8 = true.
Proof.
  assert (firstInBox Z.leb [1; 5]%Z [9]%Z (mkBox 4 8 4 8)%Z = raise IndexError)
    as Hraise by reflexivity.
  split; [exact Hraise |].
  exact (firstInBox_raise_only_short_y Z Z.leb _ _ _ _ Hraise).
Defined.

Lemma endTrajectory_clear_prefix_witness :
  length [1; 2; 5; 7]%Z = length [9; 9; 5; 7]%Z
  /\ exists n x' y',
       endTrajectoryAtIntersection Z.leb [1; 2; 5; 7]%Z [9; 9; 5; 7]%Z
         (mkBox 4 8 4 8)%Z = ret (x', y')
       /\ x' = firstn n [1; 2; 5; 7]%Z /\ y' = firstn n [9; 9; 5; 7]%Z
       /\ length x' = length y'
       /\ (length x' <= length [1; 2; 5; 7]%Z)%nat
       /\ forall k, inBoxAt Z.leb (mkBox 4 8 4 8)%Z x' y' k = false.
Proof.
  split; [reflexivity |].
  apply (endTrajectory_clear_prefix Z Z.leb). reflexivity.
Defined.

Lemma endTrajectory_idempotent_witness :
  length [1; 2; 5; 7]%Z = length [9; 9; 5; 7]%Z
  /\ endTrajectoryAtIntersection Z.leb [1; 2; 5; 7]%Z [9; 9; 5; 7]%Z
       (mkBox 4 8 4 8)%Z = ret ([1; 2]%Z, [9; 9]%Z)
  /\ endTrajectoryAtIntersection Z.leb [1; 2]%Z [9; 9]%Z (mkBox 4 8 4 8)%Z
     = ret ([1; 2]%Z, [9; 9]%Z).
Proof.
  split; [reflexivity |]. split; [reflexivity |].
  apply (endTrajectory_idempotent Z Z.leb [1; 2; 5; 7]%Z [9; 9; 5; 7]%Z);
    reflexivity.
Defined.

Lemma cut_twice_commutes_witness :
  length [1; 2; 5; 7]%Z = length [9; 9; 5; 7]%Z
  /\ cut_twice Z.leb [1; 2; 5; 7]%Z [9; 9; 5; 7]%Z
       (mkBox 4 8 4 8)%Z (mkBox 2 3 9 9)%Z
     = cut_twice Z.leb [1; 2; 5; 7]%Z [9; 9; 5; 7]%Z
         (mkBox 2 3 9 9)%Z (mkBox 4 8 4 8)%Z.
Proof.
  split; [reflexivity |].
  apply (cut_twice_commutes Z Z.leb). reflexivity.
Defined.

Lemma drawBox_corners_in_box_witness :
  (forall a, Z.leb a a = true)
  /\ Z.leb 4 8 = true /\ Z.leb 1 3 = true
  /\ exists cx cy,
       drawBox (mkBox 4 8 1 3)%Z "b" = (cx, cy, "b"%string)
       /\ length cx = 4%nat /\ length cy = 4%nat
       /\ (forall k, (k < 4)%nat ->
             inBoxAt Z.leb (mkBox 4 8 1 3)%Z cx cy k = true)
       /\ firstInBox Z.leb cx cy (mkBox 4 8 1 3)%Z = ret 0%Z.
Proof.
  split; [exact Z.leb_refl |]. split; [reflexivity |]. split; [reflexivity |].
  apply (drawBox_corners_in_box Z Z.leb (mkBox 4 8 1 3)%Z "b");
    [exact Z.leb_refl | reflexivity | reflexivity].
Defined.

Lemma tankShot_raises_only_zero_gravity_witness :
  tankShot tank2box_main obstacleBox_main 12.5 2.5 40 45 0
  = raise ZeroDivisionError
  /\ ZeroDivisionError = ZeroDivisionError /\ 0 = 0.
Proof.
  assert (tankShot tank2box_main obstacleBox_main 12.5 2.5 40 45 0
          = raise ZeroDivisionError) as Hraise
    by apply tankShot_zero_gravity.
  split; [exact Hraise |].
  exact (tankShot_raises_only_zero_gravity 12.5 2.5 40 45 0 _ _ _ Hraise).
Defined.

Lemma target_within_obstacle_never_hit_witness :
  9.8 <> 0
  /\ box_within (mkBox 45 55 10 20) obstacleBox_main
  /\ tankShot (mkBox 45 55 10 20) obstacleBox_main 12.5 2.5 40 45 9.8
     = ret false.
Proof.
  assert (9.8 <> 0) as Hg by lra.
  assert (box_within (mkBox 45 55 10 20) obstacleBox_main) as Hin
    by (unfold box_within, obstacleBox_main;
        cbn [box_left box_right box_bottom box_top]; lra).
  split; [exact Hg |]. split; [exact Hin |].
  exact (target_within_obstacle_never_hit 12.5 2.5 40 45 9.8 _ _ Hg Hin).
Defined.

Lemma tankShot_hit_monotone_witness :
  box_within tank1box_main (mkBox 0 20 0 10)
  /\ box_within (mkBox 45 55 20 40) obstacleBox_high
  /\ tankShot tank1box_main obstacleBox_high
       (0.5 * (box_left tank2box_main + box_right tank2box_main))
       (0.5 * (box_bottom tank2box_main + box_top tank2box_main)) 80 180 5
     = ret true
  /\ tankShot (mkBox 0 20 0 10) (mkBox 45 55 20 40)
       (0.5 * (box_left tank2box_main + box_right tank2box_main))
       (0.5 * (box_bottom tank2box_main + box_top tank2box_main)) 80 180 5
     = ret true.
Proof.
  assert (box_within tank1box_main (mkBox 0 20 0 10)) as Htgt
    by (unfold box_within, tank1box_main;
        cbn [box_left box_right box_bottom box_top]; lra).
  assert (box_within (mkBox 45 55 20 40) obstacleBox_high) as Hobs
    by (unfold box_within, obstacleBox_high;
        cbn [box_left box_right box_bottom box_top]; lra).
  split; [exact Htgt |]. split; [exact Hobs |].
  split; [exact player2_level_shot_hits |].
  exact (tankShot_hit_monotone _ _ _ _ _ _ _ _ _ Htgt Hobs
           player2_level_shot_hits).
Defined.

Lemma first_sample_in_own_tank (x y : list R) :
  trajectory 12.5 2.5 40 45 9.8 10000 = ret (x, y) ->
  inBoxAt Rleb tank1box_main x y 0 = true
  /\ inBoxAt Rleb obstacleBox_main x y 0 = false.
Proof.
  intros Htraj.
  destruct (trajectory_nth _ _ _ _ _ 10000 _ _ 0%nat ltac:(lia) Htraj
              ltac:(lia)) as [t0 [Et0 [Hx Hy]]].
  assert (t0 = 0) as Ht0 by (rewrite Et0; simpl; ring).
  assert (12.5 + 40 * cos (deg2rad 45) * t0 = 12.5) as Epx
    by (rewrite Ht0; ring).
  assert (2.5 + 40 * sin (deg2rad 45) * t0 - 0.5 * 9.8 * t0 ^ 2 = 2.5) as Epy
    by (rewrite Ht0; lra).
  unfold inBoxAt. rewrite Hx, Hy, Epx, Epy. split.
  - box_bounds. rewrite !Rleb_true by lra. reflexivity.
  - box_bounds. rewrite (Rleb_false 40 12.5) by lra. reflexivity.
Qed.

Lemma hit_iff_target_sample_first_witness :
  exists x y,
    trajectory 12.5 2.5 40 45 9.8 10000 = ret (x, y)
    /\ inBoxAt Rleb tank1box_main x y 0 = true
    /\ inBoxAt Rleb obstacleBox_main x y 0 = false
    /\ tankShot tank1box_main obstacleBox_main 12.5 2.5 40 45 9.8 = ret true.
Proof.
  assert (9.8 <> 0) as Hg by lra.
  pose proof (trajectory_ret 12.5 2.5 40 45 9.8 10000 Hg) as Htraj.
  destruct (first_sample_in_own_tank _ _ Htraj) as [Htgt Hobs].
  eexists. eexists. split; [exact Htraj |].
  split; [exact Htgt |]. split; [exact Hobs |].
  exact (proj2 (hit_iff_target_sample_first 12.5 2.5 40 45 9.8
                  tank1box_main obstacleBox_main) _ _ Htraj Htgt Hobs).
Defined.






Lemma parse_digits_0 : parse_digits "0" = Some 0.
Proof. reflexivity. Qed.

(** Player 1 of the boxes of [main] drops the shell: whatever the
    obstacle and the positive gravity, the turn is a miss. *)
Lemma drop_turn_misses (obstacleBox : Box R) (g : R) (rest : list string)
  (out : list output) :
  0 < g ->
  oneTurn parse_digits 1 tank1box_main tank2box_main obstacleBox 1%Z g
    (mkWorld ("0" :: "0" :: rest)%string out)
  = Ret 0%Z (mkWorld rest
               ((out ++ [Prompt "Player 1 enter velocity >"])
                ++ [Prompt "Player 1 enter angle (deg) >"])).
Proof.
  intros Hg. unfold oneTurn, io_bind.
  rewrite getNumberInput_line.
  change (accepted parse_digits default_range "0") with (Some 0).
  cbv iota. rewrite getNumberInput_line.
  change (accepted parse_digits default_range "0") with (Some 0).
  cbv iota. cbn [Z.eqb Pos.eqb].
  unfold tank1box_main at 1 2 3 4. cbn [box_left box_right box_bottom box_top].
  rewrite drop_misses; [reflexivity | exact Hg | lra |].
  intros py _. box_bounds. rewrite (Rleb_false 90) by lra. reflexivity.
Qed.

Lemma getNumberInput_hangs_without_accepted_line_witness :
  (forall l, In l (stdin (mkWorld ["abc"]%string [])) ->
     accepted parse_digits (Fin 0, Fin 100) l = None)
  /\ getNumberInput parse_digits 1000 "velocity >" (Fin 0, Fin 100)
       (mkWorld ["abc"]%string [])
     = OutOfFuel.
Proof.
  assert (forall l, In l (stdin (mkWorld ["abc"]%string [])) ->
            accepted parse_digits (Fin 0, Fin 100) l = None) as Hrej
    by (intros l [<- | []]; reflexivity).
  split; [exact Hrej |].
  exact (getNumberInput_hangs_without_accepted_line parse_digits "velocity >"
           (Fin 0, Fin 100) 1000 _ Hrej).
Defined.

Lemma getNumberInput_hangs_on_empty_range_witness :
  0 < 1
  /\ getNumberInput parse_digits 1000 "velocity >" (Fin 1, Fin 0)
       (mkWorld ["0"; "1"; "5"]%string [])
     = OutOfFuel.
Proof.
  assert (0 < 1) as Hrange by lra.
  split; [exact Hrange |].
  exact (getNumberInput_hangs_on_empty_range parse_digits "velocity >" 1 0
           1000 _ Hrange).
Defined.


Lemma getNumberInput_returns_first_accepted_witness :
  getNumberInput parse_digits 3 "velocity >" (Fin 0, Fin 100)
    (mkWorld ["abc"; "45"; "7"]%string [])
  = Ret 45 (mkWorld ["7"]%string
              [Prompt "velocity >"; Printed "Please enter a number";
               Prompt "velocity >"])
  /\ exists pre line,
       ["abc"; "45"; "7"]%string = pre ++ line :: ["7"]%string
       /\ (forall l, In l pre ->
             accepted parse_digits (Fin 0, Fin 100) l = None)
       /\ accepted parse_digits (Fin 0, Fin 100) line = Some 45.
Proof.
  assert (getNumberInput parse_digits 3 "velocity >" (Fin 0, Fin 100)
            (mkWorld ["abc"; "45"; "7"]%string [])
          = Ret 45 (mkWorld ["7"]%string
                      [Prompt "velocity >"; Printed "Please enter a number";
                       Prompt "velocity >"])) as Hret.
  { rewrite getNumberInput_line.
    change (accepted parse_digits (Fin 0, Fin 100) "abc") with (@None R).
    cbv iota. rewrite getNumberInput_line.
    assert (accepted parse_digits (Fin 0, Fin 100) "45" = Some 45) as ->.
    { apply accepted_some. split; [exact parse_digits_45 |].
      cbn [fst snd ext_leb]. split; apply Rleb_true; lra. }
    reflexivity. }
  split; [exact Hret |].
  destruct (getNumberInput_returns_first_accepted parse_digits "velocity >"
              (Fin 0, Fin 100) 3 _ 45 _ Hret)
    as [pre [line [Hin [Hrej [Hacc _]]]]].
  exists pre, line. split; [exact Hin |]. split; [exact Hrej | exact Hacc].
Defined.

Lemma playGame_eof_at_acknowledgement_witness :
  oneTurn parse_digits 1 tank1box_main tank2box_main obstacleBox_main 1%Z 9.8
    (mkWorld ["0"; "0"]%string [])
  = Ret 0%Z (mkWorld []
               (([] ++ [Prompt "Player 1 enter velocity >"])
                ++ [Prompt "Player 1 enter angle (deg) >"]))
  /\ playGame parse_digits 2 tank1box_main tank2box_main obstacleBox_main 9.8
       (mkWorld ["0"; "0"]%string [])
     = Raise EOFError
         (mkWorld []
            [Prompt "Player 1 enter velocity >";
             Prompt "Player 1 enter angle (deg) >";
             Prompt "hit enter to continue >"]).
Proof.
  assert (0 < 9.8) as Hg by lra.
  pose proof (drop_turn_misses obstacleBox_main 9.8 [] [] Hg) as Hturn.
  split; [exact Hturn |].
  exact (playGame_eof_at_acknowledgement parse_digits tank1box_main
           tank2box_main obstacleBox_main 9.8 1 _ _ Hturn eq_refl).
Defined.

(** The same game, run without the theorem above. *)
Lemma drop_then_end_of_input (obstacleBox : Box R) (g : R) :
  0 < g ->
  playGame parse_digits 2 tank1box_main tank2box_main obstacleBox g
    (mkWorld ["0"; "0"]%string [])
  = Raise EOFError
      (mkWorld []
         [Prompt "Player 1 enter velocity >";
          Prompt "Player 1 enter angle (deg) >";
          Prompt "hit enter to continue >"]).
Proof.
  intros Hg. unfold playGame. cbn [playGame_loop]. unfold io_bind.
  rewrite (drop_turn_misses obstacleBox g [] [] Hg). reflexivity.
Qed.

Lemma playGame_raises_only_witness :
  playGame parse_digits 2 tank1box_main tank2box_main obstacleBox_high 5
    (mkWorld ["0"; "0"]%string [])
  = Raise EOFError
      (mkWorld []
         [Prompt "Player 1 enter velocity >";
          Prompt "Player 1 enter angle (deg) >";
          Prompt "hit enter to continue >"])
  /\ ((EOFError = EOFError
       /\ stdin (mkWorld []
                   [Prompt "Player 1 enter velocity >";
                    Prompt "Player 1 enter angle (deg) >";
                    Prompt "hit enter to continue >"]) = [])
      \/ (EOFError = ZeroDivisionError /\ 5 = 0)).
Proof.
  assert (0 < 5) as Hg by lra.
  pose proof (drop_then_end_of_input obstacleBox_high 5 Hg) as Hraise.
  split; [exact Hraise |].
  exact (playGame_raises_only parse_digits tank1box_main tank2box_main
           obstacleBox_high 5 2 _ _ _ Hraise).
Defined.

Lemma main_raises_only_eof_witness :
  main parse_digits 2 (mkWorld ["0"; "0"]%string [])
  = Raise EOFError
      (mkWorld []
         [Prompt "Player 1 enter velocity >";
          Prompt "Player 1 enter angle (deg) >";
          Prompt "hit enter to continue >"])
  /\ EOFError = EOFError
  /\ stdin (mkWorld []
              [Prompt "Player 1 enter velocity >";
               Prompt "Player 1 enter angle (deg) >";
               Prompt "hit enter to continue >"]) = [].
Proof.
  assert (0 < 9.8) as Hg by lra.
  pose proof (drop_then_end_of_input obstacleBox_main 9.8 Hg) as Hraise.
  split; [exact Hraise |].
  exact (main_raises_only_eof parse_digits 2 _ _ _ Hraise).
Defined.

(** The game of two turns, run with three units of fuel. *)
Lemma two_turn_game_runs :
  playGame parse_digits 3 tank1box_main tank2box_main obstacleBox_high 5
    game_input
  = Ret tt game_end.
Proof.
  unfold playGame, io_bind.
  rewrite (playGame_loop_miss parse_digits tank1box_main tank2box_main
             obstacleBox_high 5 2 1%Z game_input
             (mkWorld [""; "80"; "180"]%string
                [Prompt "Player 1 enter velocity >";
                 Prompt "Player 1 enter angle (deg) >"])
             game_after_miss "").
  - change (next_player 1) with 2%Z.
    rewrite (playGame_loop_hit parse_digits tank1box_main tank2box_main
               obstacleBox_high 5 1 2%Z 2%Z game_after_miss _
               second_turn_hits); [reflexivity | discriminate].
  - rewrite (oneTurn_mono parse_digits tank1box_main tank2box_main
               obstacleBox_high 5 1 2 1%Z game_input);
      [exact first_turn_misses | lia |].
    rewrite first_turn_misses. discriminate.
  - reflexivity.
Qed.

Lemma playGame_returns_after_hit_witness :
  playGame parse_digits 3 tank1box_main tank2box_main obstacleBox_high 5
    game_input
  = Ret tt game_end
  /\ exists players p wa n wb,
       misses parse_digits tank1box_main tank2box_main obstacleBox_high 5
         players 1%Z game_input p wa
       /\ players = alternating 1%Z (length players)
       /\ (p = 1 \/ p = 2)%Z
       /\ oneTurn parse_digits n tank1box_main tank2box_main obstacleBox_high
            p 5 wa = Ret p wb
       /\ game_end
          = write (Printed ("Congratulations player " ++ str p ++ " !")) wb.
Proof.
  split; [exact two_turn_game_runs |].
  exact (playGame_returns_after_hit parse_digits tank1box_main tank2box_main
           obstacleBox_high 5 3 game_input game_end two_turn_game_runs).
Defined.

(** ** The shape of a trajectory and a game without numbers *)

Section ShapeFacts.

Variables x0 y0 v theta g : R.


(** X23.  Whenever [g] is not zero [trajectory] returns, and its two
    arrays have [npts] entries each (none for [npts = 0]); with [g]
    zero it raises and returns nothing. *)
Theorem trajectory_shape (npts : N) :
  (g <> 0 ->
   exists x y,
     trajectory x0 y0 v theta g npts = ret (x, y)
     /\ length x = N.to_nat npts /\ length y = N.to_nat npts)
  /\ (forall x y,
        trajectory x0 y0 v theta g npts = ret (x, y) ->
        g <> 0 /\ length x = length y /\ length x = N.to_nat npts).
Proof.
  split.
  - intros Hg.
    pose proof (trajectory_ret x0 y0 v theta g npts Hg) as Htraj.
    destruct (trajectory_lengths _ _ _ _ _ _ _ _ Htraj) as [Lx Ly].
    eexists. eexists. split; [exact Htraj |]. split; [exact Lx | exact Ly].
  - intros x y Htraj.
    destruct (trajectory_lengths _ _ _ _ _ _ _ _ Htraj) as [Lx Ly].
    split; [| split; [congruence | exact Lx]].
    intros ->. rewrite trajectory_zero_gravity in Htraj. discriminate Htraj.
Qed.



End ShapeFacts.

(** X25.  When no line left on the input parses as a number, [playGame]
    neither returns nor raises, however long it runs: the first prompt
    for a number never gets its answer. *)
Theorem playGame_hangs_without_number (parse_float : string -> option R)
  (tank1box tank2box obstacleBox : Box R) (g : R) (fuel : nat) (w : world) :
  (forall l, In l (stdin w) -> parse_float l = None) ->
  playGame parse_float fuel tank1box tank2box obstacleBox g w = OutOfFuel.
Proof.
  intros Hnone. destruct w as [inp out]. cbn [stdin] in Hnone.
  unfold playGame, io_bind.
  destruct fuel as [| fuel]; [reflexivity |].
  cbn [playGame_loop]. unfold io_bind, oneTurn, io_bind.
  rewrite getNumberInput_blocks; [reflexivity |].
  intros l Hl. unfold accepted. rewrite (Hnone l Hl). reflexivity.
Qed.

Lemma trajectory_shape_witness :
  9.8 <> 0
  /\ exists x y,
       trajectory 12.5 2.5 40 45 9.8 3 = ret (x, y)
       /\ length x = N.to_nat 3 /\ length y = N.to_nat 3.
Proof.
  assert (9.8 <> 0) as Hg by lra.
  split; [exact Hg |].
  exact (proj1 (trajectory_shape 12.5 2.5 40 45 9.8 3) Hg).
Defined.



Lemma playGame_hangs_without_number_witness :
  (forall l, In l (stdin (mkWorld ["abc"; ""]%string [])) ->
     parse_digits l = None)
  /\ playGame parse_digits 1000 tank1box_main tank2box_main obstacleBox_main
       9.8 (mkWorld ["abc"; ""]%string [])
     = OutOfFuel.
Proof.
  assert (forall l, In l (stdin (mkWorld ["abc"; ""]%string [])) ->
            parse_digits l = None) as Hnone
    by (intros l [<- | [<- | []]]; reflexivity).
  split; [exact Hnone |].
  exact (playGame_hangs_without_number parse_digits tank1box_main
           tank2box_main obstacleBox_main 9.8 1000 _ Hnone).
Defined.

(** ** The drop in binary64 *)

